(** * Edgeware++ popups: placement, movement, fade-out and close

    A shallow embedding of [src/edgeware/src/features/popup.py] (class
    [Popup]) and the properties its specification states about it.

    Conventions of the embedding:
    - Python [int] is [Z]; [//] and [%] with the positive divisor [side]
      are [Z.div] and [Z.modulo] (both floor, as in Python).
    - Exceptions are the constructors of [exn]; a computation that can
      raise returns a [result].
    - Calls to [random] take their draw from an explicit argument, so that
      every run of the program corresponds to one choice of draws.
    - The weights of the placement grid are Python floats; they are
      modelled by real numbers ([R]) extended with [float("inf")].
    - The opacity of the fade-out and the scale of a popup are Python
      floats; they are modelled by IEEE 754 binary64 numbers
      ([PrimFloat]).
    - Objects shared between popups (the [State] instance, the Tk window
      of a popup) live in an explicit world that every method threads. *)

From Stdlib Require Import ZArith List Lia Bool Arith.
From Stdlib Require Import Reals Lra.
From Stdlib Require Import QArith.
From Stdlib Require Import Floats.
From Stdlib Require Uint63.
Import ListNotations.

#[local] Open Scope Z_scope.

(** ** Exceptions and results *)

Inductive exn : Type :=
| IndexError          (* random.choices on an empty population *)
| ValueError          (* list.remove of a missing item, bad weights, empty randint range *)
| OverflowError       (* int() of an infinite float *)
| ZeroDivisionError   (* intersection / (sw * sh) with an empty candidate *)
| TclError            (* any Tk call on a destroyed window *)
| OSError             (* shutil.move / os.makedirs *)
| NotifierError.      (* DesktopNotifierSync.send *)

Inductive result (A : Type) : Type :=
| Ok (a : A)
| Raise (e : exn).

Arguments Ok {A} a.
Arguments Raise {A} e.

(** ** Rectangles, monitors, the shared state *)

(** A Tk geometry ["{w}x{h}+{x}+{y}"]. *)
Record Rect : Type := mkRect {
  rect_x : Z;
  rect_y : Z;
  rect_w : Z;
  rect_h : Z
}.

(** What [utils.random_monitor] returns: only [x], [y], [width],
    [height] are read. *)
Record Monitor : Type := mkMonitor {
  mon_x : Z;
  mon_y : Z;
  mon_width : Z;
  mon_height : Z
}.

(** Two monitors at the origin. *)
Definition full_hd : Monitor := mkMonitor 0 0 1920 1080.

Definition tiny_monitor : Monitor := mkMonitor 0 0 100 100.

(** [contained r m]: the rectangle lies inside the monitor. *)
Definition contained (r : Rect) (m : Monitor) : Prop :=
  mon_x m <= rect_x r /\ rect_x r + rect_w r <= mon_x m + mon_width m /\
  mon_y m <= rect_y r /\ rect_y r + rect_h r <= mon_y m + mon_height m.

Definition containedb (r : Rect) (m : Monitor) : bool :=
  (mon_x m <=? rect_x r) && (rect_x r + rect_w r <=? mon_x m + mon_width m) &&
  (mon_y m <=? rect_y r) && (rect_y r + rect_h r <=? mon_y m + mon_height m).

(** A popup as the other popups see it through [state.popups]: its
    identity ([popup is self]) and what [popup.geometry()] answers. *)
Record Window : Type := mkWindow {
  win_id : nat;
  win_geometry : Rect
}.

(** The fields of [State] that [Popup] reads or writes. *)
Record State : Type := mkState {
  popup_number : Z;
  popups : list Window;
  alt_held : bool;
  pump_scare : bool
}.

(** What [Popup.__init__] establishes (lines 45-46) and [Popup.close]
    undoes (lines 296-297): the counter is the length of the list, and
    the popup is in the list once. *)
Definition occurrences (id : nat) (l : list Window) : nat :=
  length (filter (fun p => (win_id p =? id)%nat) l).

Definition registered (st : State) (self : nat) : Prop :=
  popup_number st = Z.of_nat (length (popups st)) /\
  occurrences self (popups st) = 1%nat.

(** The fields of [Settings] that the modelled methods read. *)
Record Settings : Type := mkSettings {
  lowkey_mode : bool;
  lowkey_corner : Z;
  mitosis_mode : bool;
  mitosis_strength : Z;
  web_on_popup_close : bool;
  web_chance : Z;
  timeout_enabled : bool
}.

(** Plain settings for the grid mode and for the lowkey mode. *)
Definition grid_settings : Settings := mkSettings false 0 false 0 false 0 false.

Definition lowkey_settings (corner : Z) : Settings :=
  mkSettings true corner false 0 false 0 false.

(** ** The random source *)

(** [random.randint(a, b)]: some integer of [a..b], [ValueError] on an
    empty range.  The draw [d] is reduced into the range, so every draw
    is a run and every integer of the range is some run's result. *)
Definition randint (a b d : Z) : result Z :=
  if b <? a then Raise ValueError else Ok (a + d mod (b - a + 1)).

(** A small error monad for the straight-line parts. *)
Definition rbind {A B} (r : result A) (k : A -> result B) : result B :=
  match r with
  | Ok a => k a
  | Raise e => Raise e
  end.

Notation "x <- r ;; k" := (rbind r (fun x => k))
  (at level 61, r at next level, right associativity).

Fixpoint mapM {A B} (f : A -> result B) (l : list A) : result (list B) :=
  match l with
  | [] => Ok []
  | a :: l' => b <- f a ;; bs <- mapM f l' ;; Ok (b :: bs)
  end.

(** * Placement: [Popup.compute_geometry] *)

Module Placement.

(** ** Weights (lines 115-129) *)

(** A Python float that is either a real number or [float("inf")]. *)
Inductive weight : Type :=
| Finite (r : R)
| Infinity.

(** The builtin [min] on two such floats. *)
Definition wmin (a b : weight) : weight :=
  match a, b with
  | Finite x, Finite y => Finite (Rmin x y)
  | Finite x, Infinity => Finite x
  | Infinity, Finite y => Finite y
  | Infinity, Infinity => Infinity
  end.

Definition wadd (a b : weight) : weight :=
  match a, b with
  | Finite x, Finite y => Finite (x + y)
  | _, _ => Infinity
  end.

Definition wle (a b : weight) : Prop :=
  match a, b with
  | Finite x, Finite y => (x <= y)%R
  | _, Infinity => True
  | Infinity, Finite _ => False
  end.

(** [max(0, min(sx + sw, x + w) - max(sx, x)) * max(0, min(sy + sh, y + h) - max(sy, y))]
    for the candidate [c] and the other popup's geometry [s]. *)
Definition intersection (c s : Rect) : Z :=
  Z.max 0 (Z.min (rect_x c + rect_w c) (rect_x s + rect_w s) - Z.max (rect_x c) (rect_x s)) *
  Z.max 0 (Z.min (rect_y c + rect_h c) (rect_y s + rect_h s) - Z.max (rect_y c) (rect_y s)).

(** [1 - intersection / (sw * sh)], a true division. *)
Definition nonoverlap (c s : Rect) : R :=
  (1 - IZR (intersection c s) / IZR (rect_w c * rect_h c))%R.

(** [(sx + sw / 2 - (x + w / 2)) ** 2 + (sy + sh / 2 - (y + h / 2)) ** 2]. *)
Definition distance_squared (c s : Rect) : R :=
  ((IZR (rect_x c) + IZR (rect_w c) / 2 - (IZR (rect_x s) + IZR (rect_w s) / 2)) ^ 2 +
   (IZR (rect_y c) + IZR (rect_h c) / 2 - (IZR (rect_y s) + IZR (rect_h s) / 2)) ^ 2)%R.

(** [2 ** (32 * nonoverlap) + distance_squared]; the division raises on a
    candidate of area 0. *)
Definition sibling_weight (c s : Rect) : result R :=
  if rect_w c * rect_h c =? 0 then Raise ZeroDivisionError
  else Ok (Rpower 2 (32 * nonoverlap c s) + distance_squared c s)%R.

(** The body of [for popup in self.state.popups.copy()], after the
    [popup is self] test: [weight = min(..., weight)]. *)
Fixpoint weight_loop (c : Rect) (others : list Rect) (acc : weight) : result weight :=
  match others with
  | [] => Ok acc
  | s :: rest =>
      v <- sibling_weight c s ;;
      weight_loop c rest (wmin (Finite v) acc)
  end.

(** The popups of the registry that are not [self], in registry order. *)
Definition siblings (st : State) (self : nat) : list Rect :=
  map win_geometry (filter (fun p => negb (win_id p =? self)%nat) (popups st)).

(** The weight of the candidate position [c] (lines 117-126). *)
Definition cell_weight (st : State) (self : nat) (c : Rect) : result weight :=
  weight_loop c (siblings st self)
    (if 1 <? popup_number st then Infinity else Finite 1).

(** ** The grid and the weighted choice (lines 104-132) *)

Definition side : Z := 50.

(** [range(n)]. *)
Definition range (n : Z) : list Z := map Z.of_nat (seq 0 (Z.to_nat n)).

(** The top-left corners of the grid cells, [x_index] outermost. *)
Definition positions (monitor : Monitor) (area_width area_height : Z) : list (Z * Z) :=
  flat_map
    (fun x_index =>
       map (fun y_index => (x_index * side + mon_x monitor, y_index * side + mon_y monitor))
           (range (area_height / side)))
    (range (area_width / side)).

Definition total (ws : list weight) : weight := fold_left wadd ws (Finite 0).

(** [random.choices(population, weights)[0]] (CPython 3.9 and later):
    the weights are summed, an empty population fails on
    [cum_weights[-1]], a total that is not positive or not finite is
    refused, and one element is returned.  [d] is the drawn index. *)
Definition choices {A} (population : list A) (ws : list weight) (d : nat) : result A :=
  if negb (length ws =? length population)%nat then Raise ValueError
  else
    match population with
    | [] => Raise IndexError
    | p :: _ =>
        match total ws with
        | Infinity => Raise ValueError
        | Finite t =>
            if Rle_dec t 0 then Raise ValueError
            else Ok (nth (d mod length population)%nat population p)
        end
    end.

(** ** [compute_geometry] (lines 88-143)

    Lines 79-86 pick the monitor ([utils.random_monitor]) and scale the
    source image in floating point; [monitor], [width] and [height] are
    the values they leave in [self.monitor], [self.width], [self.height].
    The result is the geometry given to [self.geometry]. *)

Record Draws : Type := mkDraws {
  corner_draw : Z;   (* random.randint(0, 3) *)
  cell_draw : nat;   (* random.choices(positions, weights) *)
  x_draw : Z;        (* random.randint(min_x, max_x) *)
  y_draw : Z         (* random.randint(min_y, max_y) *)
}.

Definition compute_geometry (settings : Settings) (st : State) (self : nat)
    (monitor : Monitor) (width height : Z) (dr : Draws) : result Rect :=
  if lowkey_mode settings then
    corner <- (if lowkey_corner settings =? 4
               then randint 0 3 (corner_draw dr)
               else Ok (lowkey_corner settings)) ;;
    let right := (corner =? 0) || (corner =? 3) in
    let bottom := (corner =? 2) || (corner =? 3) in
    let x := mon_x monitor + (if right then mon_width monitor - width else 0) in
    let y := mon_y monitor + (if bottom then mon_height monitor - height else 0) in
    Ok (mkRect x y width height)
  else
    let area_width := mon_width monitor - width in
    let area_height := mon_height monitor - height in
    let ps := positions monitor area_width area_height in
    ws <- mapM (fun p => cell_weight st self (mkRect (fst p) (snd p) width height)) ps ;;
    cell <- choices ps ws (cell_draw dr) ;;
    let min_x := fst cell in
    let min_y := snd cell in
    let max_x := min_x + side in
    let max_x := max_x + (if area_width - max_x <? side then area_width mod side else 0) - 1 in
    let max_y := min_y + side in
    let max_y := max_y + (if area_height - max_y <? side then area_height mod side else 0) - 1 in
    x <- randint min_x max_x (x_draw dr) ;;
    y <- randint min_y max_y (y_draw dr) ;;
    Ok (mkRect x y width height).

(** ** The weight of a cell as the specification words it *)

(** The overlap area of two rectangles: the area of the rectangle
    between the larger left/top and the smaller right/bottom edges, when
    there is one. *)
Definition overlapArea (c s : Rect) : Z :=
  let left := Z.max (rect_x c) (rect_x s) in
  let right := Z.min (rect_x c + rect_w c) (rect_x s + rect_w s) in
  let top := Z.max (rect_y c) (rect_y s) in
  let bottom := Z.min (rect_y c + rect_h c) (rect_y s + rect_h s) in
  if (left <? right) && (top <? bottom) then (right - left) * (bottom - top) else 0.

Definition candidateArea (c : Rect) : Z := rect_w c * rect_h c.

Definition nonoverlapFraction (c s : Rect) : R :=
  (1 - IZR (overlapArea c s) / IZR (candidateArea c))%R.

Definition center_x (r : Rect) : R := (IZR (rect_x r) + IZR (rect_w r) / 2)%R.
Definition center_y (r : Rect) : R := (IZR (rect_y r) + IZR (rect_h r) / 2)%R.

Definition distanceSquared (c s : Rect) : R :=
  ((center_x c - center_x s) * (center_x c - center_x s) +
   (center_y c - center_y s) * (center_y c - center_y s))%R.

(** [2^(32 * nonoverlapFraction) + distanceSquared]. *)
Definition per_sibling_weight (c s : Rect) : R :=
  (Rpower 2 (32 * nonoverlapFraction c s) + distanceSquared c s)%R.

(** The minimum of a list of weights; of no weights, [Infinity]. *)
Definition minimum (ws : list weight) : weight := fold_right wmin Infinity ws.



(** ** Statements about a placement *)

(** The claim of §8 on placement, at one input. *)
Definition placed_inside (cfg : Settings) (st : State) (self : nat)
    (monitor : Monitor) (width height : Z) (dr : Draws) : Prop :=
  exists r, compute_geometry cfg st self monitor width height dr = Ok r /\
            contained r monitor.

(** A weight that [random.choices] accepts and can draw. *)
Definition good_weight (w : weight) : Prop :=
  exists v, w = Finite v /\ (1 <= v)%R.

(** ** Corners and scenarios *)

Inductive corner : Type := TopLeft | TopRight | BottomLeft | BottomRight.

(** The rectangle of the given size in a corner of the monitor. *)
Definition rect_at (c : corner) (monitor : Monitor) (width height : Z) : Rect :=
  let left := mon_x monitor in
  let right := mon_x monitor + (mon_width monitor - width) in
  let top := mon_y monitor in
  let bottom := mon_y monitor + (mon_height monitor - height) in
  match c with
  | TopLeft => mkRect left top width height
  | TopRight => mkRect right top width height
  | BottomLeft => mkRect left bottom width height
  | BottomRight => mkRect right bottom width height
  end.

(** The registry right after the first popup's [__init__]. *)
Definition alone : State := mkState 1 [mkWindow 0 (mkRect 0 0 1 1)] false false.

(** The registry with a second popup at the top left of the monitor. *)
Definition with_sibling : State :=
  mkState 2 [mkWindow 1 (mkRect 0 0 300 200); mkWindow 0 (mkRect 0 0 1 1)] false false.

Definition no_draws : Draws := mkDraws 0 0 0 0.

End Placement.

(** * Movement: the thread body [move] of [Popup.try_move] *)

Module Movement.

(** The variables the loop of lines 226-241 updates: [self.x], [self.y]
    and the locals [speed_x], [speed_y]. *)
Record Mover : Type := mkMover {
  pos_x : Z;
  pos_y : Z;
  speed_x : Z;
  speed_y : Z
}.

(** The edge tests of lines 230-231 and 235-236, on the advanced position. *)
Definition touches_x (monitor : Monitor) (width x : Z) : bool :=
  (x <=? mon_x monitor) || (mon_x monitor + mon_width monitor <=? x + width).

Definition touches_y (monitor : Monitor) (height y : Z) : bool :=
  (y <=? mon_y monitor) || (mon_y monitor + mon_height monitor <=? y + height).

(** One iteration of [while True] up to the call of [self.geometry]:
    advance, then reverse the speed of an axis whose edge test holds. *)
Definition move_step (monitor : Monitor) (width height : Z) (m : Mover) : Mover :=
  let x := pos_x m + speed_x m in
  let y := pos_y m + speed_y m in
  let speed_x := if touches_x monitor width x then - speed_x m else speed_x m in
  let speed_y := if touches_y monitor height y then - speed_y m else speed_y m in
  mkMover x y speed_x speed_y.

(** The geometry the iteration applies: [f"{width}x{height}+{x}+{y}"]. *)
Definition applied (width height : Z) (m : Mover) : Rect :=
  mkRect (pos_x m) (pos_y m) width height.

(** [n] iterations; the loop only ends when [self.geometry] raises
    [TclError] on the destroyed window, so [n] is the number of
    iterations completed before that. *)
Fixpoint move (monitor : Monitor) (width height : Z) (n : nat) (m : Mover) : Mover :=
  match n with
  | O => m
  | S k => move monitor width height k (move_step monitor width height m)
  end.

(** How far a rectangle may stick out of the monitor, per axis. *)
Definition within_margin (r : Rect) (monitor : Monitor) (margin_x margin_y : Z) : Prop :=
  mon_x monitor - margin_x <= rect_x r /\
  rect_x r + rect_w r <= mon_x monitor + mon_width monitor + margin_x /\
  mon_y monitor - margin_y <= rect_y r /\
  rect_y r + rect_h r <= mon_y monitor + mon_height monitor + margin_y.

(** The bound that one axis keeps: [lo] and [hi] are the least and the
    greatest coordinate at which the rectangle is inside the monitor,
    [V] the absolute speed.  Outside of [lo..hi] the popup is less than
    a step away and heading back. *)
Definition axis_inv (lo hi V x v : Z) : Prop :=
  Z.abs v = V /\
  (x < lo -> v = V /\ lo - V <= x) /\
  (hi < x -> v = - V /\ x <= hi + V).

Definition mover_inv (monitor : Monitor) (width height Vx Vy : Z) (m : Mover) : Prop :=
  axis_inv (mon_x monitor) (mon_x monitor + mon_width monitor - width) Vx
           (pos_x m) (speed_x m) /\
  axis_inv (mon_y monitor) (mon_y monitor + mon_height monitor - height) Vy
           (pos_y m) (speed_y m).

(** A popup at (5, 100) moving left and down on a 1920x1080 monitor. *)
Definition leaving_left : Mover := mkMover 5 100 (-10) 3.

End Movement.

(** * Lifecycle: [click], [blacklist_media], [close], [try_web_open],
      [try_mitosis], [try_timeout], [try_pump_scare] *)

Module Lifecycle.

(** What the methods do to the outside, in program order. *)
Inductive event : Type :=
| EvRoll (chance : Q) (outcome : bool)  (* roll(chance) returned outcome *)
| EvOpenWeb                             (* open_web(self.pack) *)
| EvMitosis                             (* mitosis_popup(root, settings, pack, state) *)
| EvMove                                (* shutil.move(self.media, path_blacklist) done *)
| EvNotify                              (* notifier.send(...) done *)
| EvAlpha (alpha : float)               (* self.attributes("-alpha", alpha) done *)
| EvDestroy                             (* self.destroy() *)
| EvOnClose.                            (* self.on_close() *)

(** How the blacklist side effect ends: the file system or the notifier
    may refuse. *)
Inductive blacklist_outcome : Type :=
| BlacklistOk
| MoveFails      (* os.makedirs or shutil.move raises *)
| NotifyFails.   (* DesktopNotifierSync(...).send raises *)

(** The collaborators whose code is elsewhere: [roll.roll] answers a
    chance with a boolean, the file system and the notifier answer
    [blacklist_media], and [features.misc.mitosis_popup] creates a popup,
    which changes the shared state. *)
Record Env : Type := mkEnv {
  roll : Q -> bool;
  blacklist_env : blacklist_outcome;
  mitosis_popup : State -> State
}.

(** One popup ([self]), the [State] it shares with the other popups, and
    the effects so far. *)
Record World : Type := mkWorld {
  settings : Settings;
  state : State;
  self_id : nat;
  clicks_to_close : Z;
  has_on_close : bool;    (* self.on_close is not None *)
  opacity : float;
  destroyed : bool;       (* the Tk window is gone *)
  log : list event        (* oldest first *)
}.

(** State first, exception second: what a method changed before it
    raised stays changed. *)
Definition M (A : Type) : Type := World -> result A * World.

Definition ret {A} (a : A) : M A := fun w => (Ok a, w).

Definition raise {A} (e : exn) : M A := fun w => (Raise e, w).

Definition bind {A B} (m : M A) (k : A -> M B) : M B :=
  fun w =>
    match m w with
    | (Ok a, w') => k a w'
    | (Raise e, w') => (Raise e, w')
    end.

Notation "m >> k" := (bind m (fun _ => k)) (at level 62, right associativity).

Definition emit (e : event) : M unit :=
  fun w => (Ok tt, mkWorld (settings w) (state w) (self_id w) (clicks_to_close w)
                           (has_on_close w) (opacity w) (destroyed w) (log w ++ [e])).

Definition set_state (s : State) : M unit :=
  fun w => (Ok tt, mkWorld (settings w) s (self_id w) (clicks_to_close w)
                           (has_on_close w) (opacity w) (destroyed w) (log w)).

Definition set_clicks (n : Z) : M unit :=
  fun w => (Ok tt, mkWorld (settings w) (state w) (self_id w) n
                           (has_on_close w) (opacity w) (destroyed w) (log w)).

Definition set_opacity (o : float) : M unit :=
  fun w => (Ok tt, mkWorld (settings w) (state w) (self_id w) (clicks_to_close w)
                           (has_on_close w) o (destroyed w) (log w)).

Definition when (b : bool) (m : M unit) : M unit := if b then m else ret tt.

Fixpoint repeat_m (n : nat) (m : M unit) : M unit :=
  match n with
  | O => ret tt
  | S k => m >> repeat_m k m
  end.

(** [list.remove(x)]: drops the first item equal to [x], [None] when
    there is none ([ValueError] in Python).  Popups compare by identity. *)
Fixpoint list_remove (id : nat) (l : list Window) : option (list Window) :=
  match l with
  | [] => None
  | p :: l' =>
      if (win_id p =? id)%nat then Some l'
      else match list_remove id l' with
           | Some r => Some (p :: r)
           | None => None
           end
  end.

(** [self.state.popup_number -= 1]. *)
Definition decrement_popup_number : M unit :=
  fun w =>
    set_state (mkState (popup_number (state w) - 1) (popups (state w))
                       (alt_held (state w)) (pump_scare (state w))) w.

(** [self.state.popups.remove(self)]. *)
Definition remove_self : M unit :=
  fun w =>
    match list_remove (self_id w) (popups (state w)) with
    | None => raise ValueError w
    | Some l =>
        set_state (mkState (popup_number (state w)) l
                           (alt_held (state w)) (pump_scare (state w))) w
    end.

(** [self.destroy()]: Tk destroys the window; destroying a window that
    is already gone is not an error. *)
Definition destroy : M unit :=
  fun w => (Ok tt, mkWorld (settings w) (state w) (self_id w) (clicks_to_close w)
                           (has_on_close w) (opacity w) true (log w ++ [EvDestroy])).

(** The argument of [roll] in line 270: [(100 - web_chance) / 2], a true
    division by 2, exact on floats. *)
Definition web_roll_chance (web_chance : Z) : Q := Qmake (100 - web_chance) 2.

(** Lines 269-271.  [and] does not evaluate [roll] when the flag is off. *)
Definition try_web_open (env : Env) : M unit :=
  fun w =>
    if web_on_popup_close (settings w) then
      let chance := web_roll_chance (web_chance (settings w)) in
      let outcome := roll env chance in
      (emit (EvRoll chance outcome) >> when outcome (emit EvOpenWeb)) w
    else ret tt w.

(** One call [mitosis_popup(self.root, self.settings, self.pack, self.state)]. *)
Definition spawn (env : Env) : M unit :=
  emit EvMitosis >> (fun w => set_state (mitosis_popup env (state w)) w).

(** Lines 273-276. *)
Definition try_mitosis (env : Env) : M unit :=
  fun w =>
    if mitosis_mode (settings w) && negb (lowkey_mode (settings w)) then
      repeat_m (Z.to_nat (mitosis_strength (settings w))) (spawn env) w
    else ret tt w.

(** Lines 286-293. *)
Definition blacklist_media (env : Env) : M unit :=
  match blacklist_env env with
  | MoveFails => raise OSError
  | NotifyFails => emit EvMove >> raise NotifierError
  | BlacklistOk => emit EvMove >> emit EvNotify
  end.

(** Lines 295-301. *)
Definition close (env : Env) : M unit :=
  decrement_popup_number >>
  remove_self >>
  try_web_open env >>
  destroy >>
  (fun w => when (has_on_close w) (emit EvOnClose) w).

(** Lines 278-284. *)
Definition click (env : Env) : M unit :=
  fun w =>
    (set_clicks (clicks_to_close w - 1) >>
     (fun w1 =>
        if clicks_to_close w1 <=? 0 then
          ((fun w2 => when (alt_held (state w2)) (blacklist_media env) w2) >>
           close env >>
           try_mitosis env) w1
        else ret tt w1)) w.

(** Line 267, at the time the 2500 ms timer fires. *)
Definition try_pump_scare (env : Env) : M unit :=
  fun w => when (pump_scare (state w)) (close env) w.

(** [self.attributes("-alpha", value)]: Tk raises [TclError] on a
    destroyed window. *)
Definition attributes_alpha (value : float) : M unit :=
  fun w => if destroyed w then raise TclError w else emit (EvAlpha value) w.

(** The float nearest to [0.01], which is what the literal denotes. *)
Definition step : float := 0x1.47ae147ae147bp-7%float.

(** The loop of lines 254-257.  [sleeping n] is what the other threads
    do to the world during the [n]-th [time.sleep(0.015)].  [None]: the
    fuel ran out before the loop ended. *)
Fixpoint fade_loop (fuel : nat) (sleeping : nat -> World -> World) (n : nat)
    (w : World) : option (result unit * World) :=
  match fuel with
  | O => None
  | S fuel' =>
      if PrimFloat.ltb 0 (opacity w) then
        match (set_opacity (PrimFloat.sub (opacity w) step) >>
               (fun w1 => attributes_alpha (opacity w1) w1)) w with
        | (Ok _, w') => fade_loop fuel' sleeping (S n) (sleeping n w')
        | (Raise e, w') => Some (Raise e, w')
        end
      else Some (Ok tt, w)
  end.

(** [try: ... except TclError: pass]. *)
Definition except_TclError (r : result unit * World) : result unit * World :=
  match r with
  | (Raise TclError, w) => (Ok tt, w)
  | _ => r
  end.

(** The thread body [fade_out] of lines 252-260. *)
Definition fade_out (env : Env) (fuel : nat) (sleeping : nat -> World -> World)
    (w : World) : option (result unit * World) :=
  match fade_loop fuel sleeping 0 w with
  | None => None
  | Some (Ok _, w') => Some (except_TclError (close env w'))
  | Some (Raise e, w') => Some (except_TclError (Raise e, w'))
  end.

(** Lines 262-263, at the time the [timeout] timer fires. *)
Definition try_timeout (env : Env) (fuel : nat) (sleeping : nat -> World -> World)
    (w : World) : option (result unit * World) :=
  if timeout_enabled (settings w) && negb (pump_scare (state w))
  then fade_out env fuel sleeping w
  else Some (Ok tt, w).

(** Nothing else runs while the fade thread sleeps. *)
Definition undisturbed : nat -> World -> World := fun _ w => w.

(** The user closes the popup with a click during the [k]-th sleep. *)
Definition clicked_during (env : Env) (k : nat) : nat -> World -> World :=
  fun n w => if (n =? k)%nat then snd (click env w) else w.

(** ** What a run leaves in the log *)

Definition is_on_close (e : event) : bool :=
  match e with EvOnClose => true | _ => false end.

Definition is_destroy (e : event) : bool :=
  match e with EvDestroy => true | _ => false end.

Definition is_mitosis (e : event) : bool :=
  match e with EvMitosis => true | _ => false end.

Definition is_open_web (e : event) : bool :=
  match e with EvOpenWeb => true | _ => false end.

Definition is_roll (e : event) : bool :=
  match e with EvRoll _ _ => true | _ => false end.

Definition is_alpha (e : event) : bool :=
  match e with EvAlpha _ => true | _ => false end.

Definition count (p : event -> bool) (l : list event) : nat := length (filter p l).

(** The events of [try_web_open], of [close] and of [try_mitosis]. *)
Definition web_events (env : Env) (cfg : Settings) : list event :=
  if web_on_popup_close cfg then
    let chance := web_roll_chance (web_chance cfg) in
    EvRoll chance (roll env chance) :: (if roll env chance then [EvOpenWeb] else [])
  else [].

Definition close_events (env : Env) (w : World) : list event :=
  web_events env (settings w) ++ [EvDestroy] ++ (if has_on_close w then [EvOnClose] else []).

Definition mitosis_events (cfg : Settings) : list event :=
  if mitosis_mode cfg && negb (lowkey_mode cfg)
  then repeat EvMitosis (Z.to_nat (mitosis_strength cfg))
  else [].

(** The world after a [close] that found the popup in the registry and
    left [l]. *)
Definition closed_world (env : Env) (w : World) (l : list Window) : World :=
  mkWorld (settings w)
          (mkState (popup_number (state w) - 1) l
                   (alt_held (state w)) (pump_scare (state w)))
          (self_id w) (clicks_to_close w) (has_on_close w) (opacity w) true
          (log w ++ close_events env w).

(** The shared state after the calls of [try_mitosis]. *)
Definition mitosis_state (env : Env) (cfg : Settings) (st : State) : State :=
  if mitosis_mode cfg && negb (lowkey_mode cfg)
  then Nat.iter (Z.to_nat (mitosis_strength cfg)) (mitosis_popup env) st
  else st.

Definition with_state (w : World) (st : State) : World :=
  mkWorld (settings w) st (self_id w) (clicks_to_close w)
          (has_on_close w) (opacity w) (destroyed w) (log w).

Definition with_log (w : World) (l : list event) : World :=
  mkWorld (settings w) (state w) (self_id w) (clicks_to_close w)
          (has_on_close w) (opacity w) (destroyed w) l.

Definition with_clicks (w : World) (n : Z) : World :=
  mkWorld (settings w) (state w) (self_id w) n
          (has_on_close w) (opacity w) (destroyed w) (log w).

Definition with_popup_number (w : World) (n : Z) : World :=
  mkWorld (settings w)
          (mkState n (popups (state w)) (alt_held (state w)) (pump_scare (state w)))
          (self_id w) (clicks_to_close w)
          (has_on_close w) (opacity w) (destroyed w) (log w).

(** The world after the last click on a registered popup: [before] are
    the events of the blacklist side effect, [l] is the registry without
    the popup. *)
Definition clicked_world (env : Env) (w : World) (l : list Window)
    (before : list event) : World :=
  mkWorld (settings w)
          (mitosis_state env (settings w)
             (mkState (popup_number (state w) - 1) l
                      (alt_held (state w)) (pump_scare (state w))))
          (self_id w) (clicks_to_close w - 1) (has_on_close w) (opacity w) true
          (log w ++ before ++ close_events env w ++ mitosis_events (settings w)).

(** ** The fade-out, tick by tick *)

(** The opacity setting [k / 100] of a whole percentage. *)
Definition percent (k : nat) : float :=
  PrimFloat.div (PrimFloat.of_uint63 (Uint63.of_Z (Z.of_nat k))) 100%float.

(** The value of [self.opacity] after [i] executions of
    [self.opacity -= 0.01], starting from [o]. *)
Fixpoint opacity_after (i : nat) (o : float) : float :=
  match i with
  | O => o
  | S j => PrimFloat.sub (opacity_after j o) step
  end.

(** The values given to [self.attributes("-alpha", ...)] by the first
    [n] ticks. *)
Definition alphas (n : nat) (o : float) : list event :=
  map (fun i => EvAlpha (opacity_after (S i) o)) (seq 0 n).

(** One tick on a live window, and [n] of them. *)
Definition tick (w : World) : World :=
  mkWorld (settings w) (state w) (self_id w) (clicks_to_close w) (has_on_close w)
          (PrimFloat.sub (opacity w) step) (destroyed w)
          (log w ++ [EvAlpha (PrimFloat.sub (opacity w) step)]).

Fixpoint ticks (n : nat) (w : World) : World :=
  match n with
  | O => w
  | S k => tick (ticks k w)
  end.

(** [fade_profile o n]: starting from [o], the loop runs exactly [n]
    ticks - the opacity is positive before each of them, each tick
    lowers it, and after the last one it is not positive any more. *)
Definition fade_profile (o : float) (n : nat) : bool :=
  forallb (fun i => PrimFloat.ltb 0 (opacity_after i o) &&
                    PrimFloat.ltb (opacity_after (S i) o) (opacity_after i o))
          (seq 0 n) &&
  negb (PrimFloat.ltb 0 (opacity_after n o)).

(** The number of ticks from [k / 100]: [k], or one more when rounding
    leaves a positive rest after [k] ticks. *)
Definition fade_ticks (k : nat) : nat :=
  if PrimFloat.ltb 0 (opacity_after k (percent k)) then S k else k.

Definition fade_check (k : nat) : bool := fade_profile (percent k) (fade_ticks k).

(** A registered popup at full opacity with the timeout enabled. *)
Definition fading_popup : World :=
  mkWorld (mkSettings false 0 false 0 false 0 true)
          (mkState 1 [mkWindow 0 (mkRect 10 10 300 200)] false false)
          0 1 true (percent 100) false [].

(** ** Scenarios *)

Definition always (b : bool) : Q -> bool := fun _ => b.

(** What constructing a popup does to the state (lines 45-46). *)
Definition register_new (st : State) : State :=
  mkState (popup_number st + 1)
          (popups st ++ [mkWindow (S (list_max (map win_id (popups st)))) (mkRect 0 0 1 1)])
          (alt_held st) (pump_scare st).

Definition calm : Env := mkEnv (always false) BlacklistOk register_new.

Definition failing_disk : Env := mkEnv (always false) MoveFails register_new.

(** Mitosis of strength 3, link opening with [web_chance] 20. *)
Definition mitosis_settings : Settings := mkSettings false 0 true 3 true 20 true.

(** One registered popup with a callback, one click from closing. *)
Definition one_popup (cfg : Settings) (alt pump : bool) : World :=
  mkWorld cfg (mkState 1 [mkWindow 0 (mkRect 10 10 300 200)] alt pump)
          0 1 true 1%float false [].

(** Two popups share the registry; ours is the second one. *)
Definition second_popup (cfg : Settings) (alt pump : bool) : World :=
  mkWorld cfg
          (mkState 2 [mkWindow 7 (mkRect 700 400 300 200);
                      mkWindow 0 (mkRect 10 10 300 200)] alt pump)
          0 1 true 1%float false [].

End Lifecycle.


(** * The first speed of a moving popup: lines 219-223 of [Popup.try_move] *)

Module Speed.

(** The loop [while speed_x == 0 and speed_y == 0], entered with the
    values of lines 219-220.  [draws n] holds the two draws of the [n]-th
    pass.  [None]: the fuel ran out before the loop ended. *)
Fixpoint pick_speed (fuel : nat) (moving_speed : Z) (draws : nat -> Z * Z) (n : nat)
    (speed_x speed_y : Z) : option (result (Z * Z)) :=
  match fuel with
  | O => None
  | S fuel' =>
      if (speed_x =? 0) && (speed_y =? 0) then
        match randint (- moving_speed) moving_speed (fst (draws n)) with
        | Raise e => Some (Raise e)
        | Ok vx =>
            match randint (- moving_speed) moving_speed (snd (draws n)) with
            | Raise e => Some (Raise e)
            | Ok vy => pick_speed fuel' moving_speed draws (S n) vx vy
            end
        end
      else Some (Ok (speed_x, speed_y))
  end.

(** Lines 219-223: [0 if self.settings.moving_chance else
    self.settings.moving_speed] for both speeds, then the loop. *)
Definition initial_speed (fuel : nat) (moving_chance moving_speed : Z)
    (draws : nat -> Z * Z) : option (result (Z * Z)) :=
  let start := if moving_chance =? 0 then moving_speed else 0 in
  pick_speed fuel moving_speed draws 0 start start.

(** What the [n]-th pass of the loop draws. *)
Definition drawn (moving_speed : Z) (draws : nat -> Z * Z) (n : nat) : Z * Z :=
  (- moving_speed + fst (draws n) mod (moving_speed - - moving_speed + 1),
   - moving_speed + snd (draws n) mod (moving_speed - - moving_speed + 1)).

Definition still (v : Z * Z) : bool := (fst v =? 0) && (snd v =? 0).

(** Draws that give (0, 0) twice and then (3, -2) for a speed of 5. *)
Definition third_time_lucky (n : nat) : Z * Z :=
  match n with
  | O | S O => (5, 5)
  | _ => (8, 3)
  end.

End Speed.

(** * Registration and repeated clicks: [Popup.__init__] and
      [Popup.try_multi_click] *)

Module Clicks.
Import Lifecycle.

(** Lines 45-46 of [__init__]: [state.popup_number += 1] and
    [state.popups.append(self)]. *)
Definition register (st : State) (self : Window) : State :=
  mkState (popup_number st + 1) (popups st ++ [self]) (alt_held st) (pump_scare st).

(** Line 249.  [random_clicks_to_close] is what
    [self.pack.random_clicks_to_close(self.media)] answers. *)
Definition try_multi_click (multi_click_popups : bool) (random_clicks_to_close : Z)
    : M unit :=
  set_clicks (if multi_click_popups then random_clicks_to_close else 1).

(** [n] clicks one after the other.  Each is a Tk callback of its own:
    an exception ends that callback only. *)
Fixpoint after_clicks (env : Env) (n : nat) (w : World) : World :=
  match n with
  | O => w
  | S k => after_clicks env k (snd (click env w))
  end.

(** The modifier key goes up or down (the key handlers write
    [state.alt_held]). *)
Definition with_alt (w : World) (held : bool) : World :=
  with_state w (mkState (popup_number (state w)) (popups (state w)) held
                        (pump_scare (state w))).

(** The clicks a popup takes: the counter, and one at least. *)
Definition clicks_needed (multi_click_popups : bool) (random_clicks_to_close : Z) : nat :=
  Z.to_nat (Z.max 1 (if multi_click_popups then random_clicks_to_close else 1)).

(** A popup set to five clicks by its pack. *)
Definition five_clicks : World :=
  snd (try_multi_click true 5 (one_popup mitosis_settings false false)).

(** A popup object that is not in the registry yet. *)
Definition newcomer : World :=
  mkWorld grid_settings (mkState 1 [mkWindow 0 (mkRect 10 10 300 200)] false false)
          5 1 true 1%float false [].

(** A popup one click from closing, with the modifier held and a
    file system that refuses the move.  *)
Definition held_popup : World := one_popup grid_settings true false.

End Clicks.

(** * Scenarios for the grid *)

Module GridScenes.
Import Placement.

(** A monitor to the left of the primary one. *)
Definition left_monitor : Monitor := mkMonitor (-1920) 0 1920 1080.

(** A strip-shaped image scaled down to no width at all. *)
Definition no_width : Z := 0.

End GridScenes.

(** * The size of a popup: lines 81-86 of [Popup.compute_geometry]

    The scale is computed in Python floats, modelled by IEEE 754
    binary64 numbers.  Pixel counts are far below [2^53], so that the
    conversion of an [int] operand to a float is exact. *)

Module Sizing.
Import Placement.

(** An [int] operand of a float operation. *)
Definition of_int (n : Z) : float :=
  if n <? 0 then PrimFloat.opp (PrimFloat.of_uint63 (Uint63.of_Z (- n)))
  else PrimFloat.of_uint63 (Uint63.of_Z n).

(** [int(f)]: truncation towards zero. *)
Definition int (f : float) : result Z :=
  match Prim2SF f with
  | S754_zero _ => Ok 0
  | S754_infinity _ => Raise OverflowError
  | S754_nan => Raise ValueError
  | S754_finite s m e =>
      let v := if 0 <=? e then Z.pos m * 2 ^ e else Z.pos m / 2 ^ (- e) in
      Ok (if s then - v else v)
  end.

(** [a / b] on two [int]s. *)
Definition true_div (a b : Z) : result float :=
  if b =? 0 then Raise ZeroDivisionError
  else Ok (PrimFloat.div (of_int a) (of_int b)).

(** [a / b] on two floats. *)
Definition float_div (a b : float) : result float :=
  if PrimFloat.eqb b 0%float then Raise ZeroDivisionError
  else Ok (PrimFloat.div a b).

(** Lines 81-86: [self.width] and [self.height] for a source image of
    [source_width] x [source_height] pixels; [d] is the draw of
    [random.randint]. *)
Definition scaled_size (cfg : Settings) (monitor : Monitor)
    (source_width source_height : Z) (d : Z) : result (Z * Z) :=
  source_size <- true_div (Z.max source_width source_height)
                          (Z.min (mon_width monitor) (mon_height monitor)) ;;
  percentage <- (if negb (lowkey_mode cfg) then randint 30 70 d else randint 20 50 d) ;;
  target_size <- true_div percentage 100 ;;
  scale <- float_div target_size source_size ;;
  width <- int (PrimFloat.mul (of_int source_width) scale) ;;
  height <- int (PrimFloat.mul (of_int source_height) scale) ;;
  Ok (width, height).

(** [compute_geometry(source_width, source_height)] as a whole, on the
    monitor that [utils.random_monitor] answered: the size of lines
    81-86, then the placement of lines 88-141. *)
Definition compute_geometry_from (cfg : Settings) (st : State) (self : nat)
    (monitor : Monitor) (source_width source_height : Z) (d : Z) (dr : Draws)
    : result Rect :=
  size <- scaled_size cfg monitor source_width source_height d ;;
  compute_geometry cfg st self monitor (fst size) (snd size) dr.

End Sizing.

From Stdlib Require Ascii String.
From Stdlib Require Import Sorted.

(** * The names of [Popup.blacklist_media] (lines 287-288)

    Python strings are modelled by [string]: sequences of characters
    with code points below 256.  [os.path] is [posixpath]. *)

Module Names.
Import Ascii String.
#[local] Open Scope string_scope.

(** [str.isspace] on one character with a code point below 256. *)
Definition isspace (c : ascii) : bool :=
  let n := nat_of_ascii c in
  ((9 <=? n) && (n <=? 13) || (28 <=? n) && (n <=? 32) || (n =? 133) || (n =? 160))%nat.

(** [str.split()] without arguments: the maximal runs of characters
    that are not whitespace.  [word] is the run being read. *)
Fixpoint split_from (s word : string) : list string :=
  match s with
  | EmptyString => match word with EmptyString => [] | _ => [word] end
  | String c s' =>
      if isspace c then
        match word with
        | EmptyString => split_from s' EmptyString
        | _ => word :: split_from s' EmptyString
        end
      else split_from s' (word ++ String c EmptyString)
  end.

Definition split (s : string) : list string := split_from s EmptyString.

(** [sep.join(pieces)] for the empty separator. *)
Definition join (pieces : list string) : string := fold_right append EmptyString pieces.

(** The directory of line 288 below [Data.BLACKLIST]:
    ["".join(self.pack.info.name.split())]. *)
Definition blacklist_directory (pack_name : string) : string := join (split pack_name).

(** [s.rfind(c)]: the last index of [c] in [s], or -1.  [i] is the index
    of the first character of [s], [best] the last index seen so far. *)
Fixpoint rfind_from (c : ascii) (s : string) (i best : Z) : Z :=
  match s with
  | EmptyString => best
  | String a s' => rfind_from c s' (i + 1) (if Ascii.eqb a c then i else best)
  end.

Definition rfind (c : ascii) (s : string) : Z := rfind_from c s 0 (-1).

(** The slice [s[i:]] for [0 <= i]. *)
Fixpoint slice_from (i : nat) (s : string) : string :=
  match i, s with
  | O, _ => s
  | S i', String _ s' => slice_from i' s'
  | S _, EmptyString => EmptyString
  end.

(** [posixpath.basename(p)]: [i = p.rfind("/") + 1; return p[i:]]. *)
Definition basename (p : string) : string :=
  slice_from (Z.to_nat (rfind "/" p + 1)) p.

(** [s.split(sep)] for a separator of one character.  [piece] is the
    piece being read. *)
Fixpoint split_on_from (sep : ascii) (s piece : string) : list string :=
  match s with
  | EmptyString => [piece]
  | String a s' =>
      if Ascii.eqb a sep then piece :: split_on_from sep s' EmptyString
      else split_on_from sep s' (piece ++ String a EmptyString)
  end.

Definition split_on (sep : ascii) (s : string) : list string :=
  split_on_from sep s EmptyString.

(** Line 287: [os.path.basename(self.media).split("/")[-1]]. *)
Definition filename (media : string) : string :=
  last (split_on "/" (basename media)) EmptyString.

(** The characters of [s] that satisfy [keep], in order. *)
Fixpoint filter_string (keep : ascii -> bool) (s : string) : string :=
  match s with
  | EmptyString => EmptyString
  | String c s' =>
      if keep c then String c (filter_string keep s') else filter_string keep s'
  end.

Definition no_space (c : ascii) : bool := negb (isspace c).

Definition no_slash (c : ascii) : bool := negb (Ascii.eqb c "/").

(** Every character of [s] satisfies [p]. *)
Fixpoint all_chars (p : ascii -> bool) (s : string) : bool :=
  match s with
  | EmptyString => true
  | String c s' => p c && all_chars p s'
  end.

End Names.

(** * The levels listed by [Popup.try_corruption_dev] (lines 178-189) *)

Module CorruptionDev.
Import String.

(** [mood in moods], for the mood that
    [self.pack.index.media_moods.get(self.media.name, None)] answered:
    [None] is in no list of mood names. *)
Definition mood_in (mood : option string) (moods : list string) : bool :=
  match mood with
  | None => false
  | Some m => existsb (String.eqb m) moods
  end.

(** [l.index(x)]: the first position whose item equals [x], counted from
    [i]; [ValueError] when there is none. *)
Fixpoint index_from {A} (eq : A -> A -> bool) (x : A) (l : list A) (i : Z) : result Z :=
  match l with
  | [] => Raise ValueError
  | y :: l' => if eq y x then Ok i else index_from eq x l' (i + 1)
  end.

Section Levels.

(** A corruption level of the pack: its class is defined elsewhere, so
    are its equality and its two lists of moods. *)
Variable Level : Type.
Variable level_eq : Level -> Level -> bool.
Variable added_moods : Level -> list string.
Variable removed_moods : Level -> list string.

(** Lines 183-186: what one level does to [is_mood_on]. *)
Definition switch (mood : option string) (is_mood_on : bool) (level : Level) : bool :=
  if mood_in mood (added_moods level) then true
  else if mood_in mood (removed_moods level) then false
  else is_mood_on.

(** The loop of lines 182-189 over the levels that are left. *)
Fixpoint valid_levels_loop (corruption_levels : list Level) (mood : option string)
    (rest : list Level) (is_mood_on : bool) (valid_levels : list Z) : result (list Z) :=
  match rest with
  | [] => Ok valid_levels
  | level :: rest' =>
      let is_mood_on := switch mood is_mood_on level in
      if is_mood_on then
        i <- index_from level_eq level corruption_levels 0 ;;
        valid_levels_loop corruption_levels mood rest' is_mood_on (valid_levels ++ [i + 1])
      else valid_levels_loop corruption_levels mood rest' is_mood_on valid_levels
  end.

(** The list shown after "Valid Levels:". *)
Definition valid_levels (corruption_levels : list Level) (mood : option string)
    : result (list Z) :=
  valid_levels_loop corruption_levels mood corruption_levels false [].

(** The mood is on at the end of [levels]: some level adds it and no
    later level takes it away (a level that both adds and removes it
    adds it). *)
Definition on_at_end (mood : option string) (levels : list Level) : Prop :=
  exists before level after,
    levels = before ++ level :: after /\
    mood_in mood (added_moods level) = true /\
    Forall (fun l => mood_in mood (added_moods l) = true \/
                     mood_in mood (removed_moods l) = false) after.

(** No level of the list equals a later one. *)
Definition earlier_differ (levels : list Level) : Prop :=
  forall before level after,
    levels = before ++ level :: after ->
    Forall (fun l => level_eq l level = false) before.

(** The loop with the position counted instead of looked up. *)
Fixpoint counted (mood : option string) (rest : list Level) (is_mood_on : bool)
    (position : Z) : list Z :=
  match rest with
  | [] => []
  | level :: rest' =>
      let is_mood_on := switch mood is_mood_on level in
      (if is_mood_on then [position + 1] else []) ++
      counted mood rest' is_mood_on (position + 1)
  end.

End Levels.

(** Levels given by their two lists of moods, equal when both agree. *)
Definition plain_level : Type := list string * list string.

Definition plain_eq (a b : plain_level) : bool :=
  if list_eq_dec string_dec (fst a) (fst b)
  then if list_eq_dec string_dec (snd a) (snd b) then true else false
  else false.

(** Four levels: "goth" comes at level 1, goes at level 3, comes back
    at level 4. *)
Definition four_levels : list plain_level :=
  [(["goth"], []); (["cute"], []); ([], ["goth"]); (["goth"; "neon"], ["cute"])]%string.

End CorruptionDev.
(** * Properties *)

(** ** Basic facts about rectangles, draws and the error monad *)

Lemma containedb_spec r m : containedb r m = true <-> contained r m.
Proof.
  unfold containedb, contained.
  rewrite !andb_true_iff, !Z.leb_le. tauto.
Qed.

Lemma randint_range a b d n :
  randint a b d = Ok n -> a <= n <= b.
Proof.
  unfold randint. destruct (Z.ltb_spec b a); [discriminate|].
  intros [= <-].
  pose proof (Z.mod_pos_bound d (b - a + 1)). lia.
Qed.

Lemma randint_total a b d :
  a <= b -> exists n, randint a b d = Ok n.
Proof.
  intros H. unfold randint.
  destruct (Z.ltb_spec b a); [lia|]. eauto.
Qed.

Lemma randint_onto a b n :
  a <= n <= b -> randint a b (n - a) = Ok n.
Proof.
  intros H. unfold randint.
  destruct (Z.ltb_spec b a); [lia|].
  rewrite Z.mod_small by lia. f_equal. lia.
Qed.

Lemma mapM_ok {A B} (f : A -> result B) (g : A -> B) (l : list A) :
  (forall a, In a l -> f a = Ok (g a)) -> mapM f l = Ok (map g l).
Proof.
  induction l as [|a l IH]; intros H; simpl; [reflexivity|].
  rewrite (H a (or_introl eq_refl)). simpl.
  rewrite IH by (intros; apply H; now right). reflexivity.
Qed.

(** ** Placement weights *)

Module PlacementWeights.
Import Placement.

(** *** [wmin] is a minimum *)

Lemma wmin_comm a b : wmin a b = wmin b a.
Proof. destruct a, b; simpl; try reflexivity. now rewrite Rmin_comm. Qed.

Lemma wmin_assoc a b c : wmin a (wmin b c) = wmin (wmin a b) c.
Proof. destruct a, b, c; simpl; try reflexivity. now rewrite Rmin_assoc. Qed.

Lemma wmin_infinity_r a : wmin a Infinity = a.
Proof. now destruct a. Qed.

Lemma wle_refl a : wle a a.
Proof. destruct a; simpl; [lra | exact I]. Qed.

Lemma wle_trans a b c : wle a b -> wle b c -> wle a c.
Proof. destruct a, b, c; simpl; try tauto; lra. Qed.

Lemma wmin_le_l a b : wle (wmin a b) a.
Proof. destruct a, b; simpl; try exact I; try lra. apply Rmin_l. Qed.

Lemma wmin_le_r a b : wle (wmin a b) b.
Proof. rewrite wmin_comm. apply wmin_le_l. Qed.

Lemma wmin_cases a b : wmin a b = a \/ wmin a b = b.
Proof.
  destruct a as [x|], b as [y|]; simpl; auto.
  unfold Rmin. destruct (Rle_dec x y); auto.
Qed.

(** [minimum] is below every element and, on a list that is not empty,
    is one of the elements. *)
Lemma minimum_le ws w : In w ws -> wle (minimum ws) w.
Proof.
  induction ws as [|v ws IH]; simpl; [tauto|].
  intros [->|H].
  - apply wmin_le_l.
  - eapply wle_trans; [apply wmin_le_r | now apply IH].
Qed.

Lemma minimum_in ws : ws <> [] -> In (minimum ws) ws.
Proof.
  induction ws as [|v ws IH]; [congruence|]. intros _. simpl.
  destruct ws as [|v' ws'].
  - simpl. left. now rewrite wmin_infinity_r.
  - destruct (wmin_cases v (minimum (v' :: ws'))) as [E|E]; simpl in E |- *; rewrite E.
    + now left.
    + right. apply IH. discriminate.
Qed.

(** *** The code's formulas are the specification's *)

Lemma intersection_overlapArea c s : intersection c s = overlapArea c s.
Proof.
  unfold intersection, overlapArea. cbv zeta.
  destruct (Z.ltb_spec (Z.max (rect_x c) (rect_x s))
                       (Z.min (rect_x c + rect_w c) (rect_x s + rect_w s)));
  destruct (Z.ltb_spec (Z.max (rect_y c) (rect_y s))
                       (Z.min (rect_y c + rect_h c) (rect_y s + rect_h s)));
  simpl; try nia.
Qed.

Lemma distance_squared_centers c s : distance_squared c s = distanceSquared c s.
Proof. unfold distance_squared, distanceSquared, center_x, center_y. simpl. ring. Qed.

Lemma sibling_weight_spec c s :
  0 < rect_w c -> 0 < rect_h c ->
  sibling_weight c s = Ok (per_sibling_weight c s).
Proof.
  intros Hw Hh. unfold sibling_weight.
  destruct (Z.eqb_spec (rect_w c * rect_h c) 0) as [E|_]; [nia|].
  unfold per_sibling_weight, nonoverlap, nonoverlapFraction, candidateArea.
  now rewrite intersection_overlapArea, distance_squared_centers.
Qed.

(** The overlap is part of the candidate, so the fraction is in [0, 1]. *)
Lemma overlapArea_bounds c s :
  0 <= rect_w c -> 0 <= rect_h c ->
  0 <= overlapArea c s <= candidateArea c.
Proof.
  intros Hw Hh. rewrite <- intersection_overlapArea.
  unfold intersection, candidateArea. nia.
Qed.

Lemma nonoverlapFraction_bounds c s :
  0 < rect_w c -> 0 < rect_h c ->
  (0 <= nonoverlapFraction c s <= 1)%R.
Proof.
  intros Hw Hh. unfold nonoverlapFraction.
  destruct (overlapArea_bounds c s) as [H0 H1]; try lia.
  assert (Ha : 0 < candidateArea c) by (unfold candidateArea; nia).
  apply IZR_le in H0, H1. apply IZR_lt in Ha.
  assert (0 <= IZR (overlapArea c s) / IZR (candidateArea c) <= 1)%R.
  { split.
    - apply Rmult_le_pos; [lra|]. left. now apply Rinv_0_lt_compat.
    - apply Rmult_le_reg_r with (IZR (candidateArea c)); [lra|].
      unfold Rdiv. rewrite Rmult_assoc, Rinv_l by lra. lra. }
  lra.
Qed.

(** No sibling brings a weight under 1. *)
Lemma per_sibling_weight_ge_1 c s :
  0 < rect_w c -> 0 < rect_h c -> (1 <= per_sibling_weight c s)%R.
Proof.
  intros Hw Hh. unfold per_sibling_weight.
  destruct (nonoverlapFraction_bounds c s Hw Hh) as [H0 _].
  assert (1 <= Rpower 2 (32 * nonoverlapFraction c s))%R.
  { rewrite <- (Rpower_O 2) by lra. apply Rle_Rpower; lra. }
  assert (0 <= distanceSquared c s)%R.
  { unfold distanceSquared.
    pose proof (Rle_0_sqr (center_x c - center_x s)).
    pose proof (Rle_0_sqr (center_y c - center_y s)).
    unfold Rsqr in *. lra. }
  lra.
Qed.

(** *** The loop *)

Lemma weight_loop_fold c sibs acc :
  0 < rect_w c -> 0 < rect_h c ->
  weight_loop c sibs acc =
  Ok (wmin (minimum (map (fun s => Finite (per_sibling_weight c s)) sibs)) acc).
Proof.
  intros Hw Hh. revert acc.
  induction sibs as [|s sibs IH]; intros acc;
    cbn [weight_loop map minimum fold_right].
  - now destruct acc.
  - rewrite sibling_weight_spec by assumption. cbn [rbind].
    rewrite IH. f_equal.
    rewrite wmin_assoc. f_equal. apply wmin_comm.
Qed.

Lemma minimum_ge_1 c sibs :
  0 < rect_w c -> 0 < rect_h c ->
  wle (Finite 1) (minimum (map (fun s => Finite (per_sibling_weight c s)) sibs)).
Proof.
  intros Hw Hh. induction sibs as [|s sibs IH]; [exact I|].
  pose proof (per_sibling_weight_ge_1 c s Hw Hh) as H1.
  cbn [map minimum fold_right]. fold (minimum (map (fun s => Finite (per_sibling_weight c s)) sibs)).
  destruct (minimum _) as [m|]; simpl in *; [|lra].
  apply Rmin_glb; lra.
Qed.

End PlacementWeights.

(** ** Placement *)

Module PlacementProps.
Import Placement PlacementWeights.

Lemma range_In n z : In z (range n) <-> 0 <= z < n.
Proof.
  unfold range. rewrite in_map_iff. split.
  - intros (k & <- & Hk). apply in_seq in Hk. lia.
  - intros H. exists (Z.to_nat z). split; [lia|]. apply in_seq. lia.
Qed.

Lemma positions_In monitor aw ah p :
  In p (positions monitor aw ah) <->
  exists x_index y_index,
    0 <= x_index < aw / side /\ 0 <= y_index < ah / side /\
    p = (x_index * side + mon_x monitor, y_index * side + mon_y monitor).
Proof.
  unfold positions. rewrite in_flat_map. split.
  - intros (xi & Hx & Hp). apply in_map_iff in Hp as (yi & <- & Hy).
    apply range_In in Hx, Hy. eauto.
  - intros (xi & yi & Hx & Hy & ->). exists xi. split; [now apply range_In|].
    apply in_map_iff. exists yi. split; [reflexivity | now apply range_In].
Qed.

Lemma positions_nonempty monitor aw ah :
  side <= aw -> side <= ah -> positions monitor aw ah <> [].
Proof.
  intros Hw Hh E.
  assert (H : In (0 * side + mon_x monitor, 0 * side + mon_y monitor)
                 (positions monitor aw ah)).
  { apply positions_In. exists 0, 0. unfold side in *.
    repeat split; try lia; apply Z.div_str_pos; lia. }
  rewrite E in H. destruct H.
Qed.

(** With the popup registered, a counter above 1 means another popup is
    in the list. *)
Lemma registered_siblings st self :
  registered st self -> 1 < popup_number st -> siblings st self <> [].
Proof.
  intros [Hn Ho] H1 E.
  apply (f_equal (@length Rect)) in E. unfold siblings in E.
  rewrite length_map in E. simpl in E.
  pose proof (filter_length (fun p => (win_id p =? self)%nat) (popups st)) as HL.
  unfold occurrences in Ho. lia.
Qed.

(** Every cell of a popup of positive size gets a finite weight of at
    least 1, so every cell can be drawn. *)
Lemma cell_weight_finite st self c :
  0 < rect_w c -> 0 < rect_h c ->
  (1 < popup_number st -> siblings st self <> []) ->
  exists v, cell_weight st self c = Ok (Finite v) /\ (1 <= v)%R.
Proof.
  intros Hw Hh Hs. unfold cell_weight.
  rewrite weight_loop_fold by assumption.
  pose proof (minimum_ge_1 c (siblings st self) Hw Hh) as Hm.
  destruct (Z.ltb_spec 1 (popup_number st)) as [H1|H1].
  - rewrite wmin_infinity_r.
    assert (Hin : In (minimum (map (fun s => Finite (per_sibling_weight c s))
                                   (siblings st self)))
                     (map (fun s => Finite (per_sibling_weight c s)) (siblings st self))).
    { apply minimum_in. intros E. apply map_eq_nil in E. now apply Hs. }
    apply in_map_iff in Hin as (s & Es & _).
    rewrite <- Es in Hm |- *. eauto.
  - destruct (minimum _) as [m|]; simpl in *.
    + exists (Rmin m 1). split; [reflexivity|]. apply Rmin_glb; lra.
    + exists 1%R. split; [reflexivity | lra].
Qed.

Lemma mapM_Forall {A B} (f : A -> result B) (P : B -> Prop) (l : list A) :
  (forall a, In a l -> exists b, f a = Ok b /\ P b) ->
  exists bs, mapM f l = Ok bs /\ Forall P bs /\ length bs = length l.
Proof.
  induction l as [|a l IH]; intros H; simpl.
  - exists []. auto.
  - destruct (H a (or_introl eq_refl)) as (b & -> & Hb).
    destruct IH as (bs & -> & HP & HL); [intros; apply H; now right|].
    exists (b :: bs). simpl. auto.
Qed.

Lemma total_good ws acc :
  Forall good_weight ws ->
  exists t, fold_left wadd ws (Finite acc) = Finite t /\ (acc + INR (length ws) <= t)%R.
Proof.
  intros H. revert acc. induction H as [|w ws (v & -> & Hv) _ IH]; intros acc; simpl.
  - exists acc. split; [reflexivity | lra].
  - destruct (IH (acc + v)%R) as (t & -> & Ht). exists t. split; [reflexivity|].
    destruct (length ws); [simpl in *; lra|].
    rewrite S_INR in *. lra.
Qed.

(** The weighted choice returns one of the cells whenever there is a
    cell and the weights are good. *)
Lemma choices_good {A} (ps : list A) ws d :
  ps <> [] -> length ws = length ps -> Forall good_weight ws ->
  exists p, choices ps ws d = Ok p /\ In p ps.
Proof.
  intros Hne HL HF. unfold choices.
  rewrite HL, Nat.eqb_refl. simpl.
  destruct ps as [|p ps]; [congruence|].
  unfold total. destruct (total_good ws 0 HF) as (t & -> & Ht).
  assert (0 < t)%R.
  { rewrite HL in Ht. simpl length in Ht. rewrite S_INR in Ht.
    pose proof (pos_INR (length ps)). lra. }
  destruct (Rle_dec t 0); [lra|].
  eexists. split; [reflexivity|].
  apply nth_In. apply Nat.mod_upper_bound. discriminate.
Qed.

(** The span drawn inside a chosen cell stays inside the area. *)
Lemma span_inside origin area index d n :
  0 <= index < area / side ->
  let min := index * side + origin in
  let max := min + side in
  let max := max + (if area - max <? side then area mod side else 0) - 1 in
  randint min max d = Ok n ->
  origin <= n <= origin + area - 1.
Proof.
  intros Hi. cbv zeta. intros Hr. apply randint_range in Hr.
  unfold side in *.
  pose proof (Z.mod_pos_bound area 50 ltac:(lia)).
  pose proof (Z.div_mod area 50 ltac:(lia)).
  destruct (Z.ltb_spec (area - (index * 50 + origin + 50)) 50); lia.
Qed.

Lemma span_nonempty origin area index d :
  let min := index * side + origin in
  let max := min + side in
  let max := max + (if area - max <? side then area mod side else 0) - 1 in
  exists n, randint min max d = Ok n.
Proof.
  cbv zeta. apply randint_total. unfold side.
  pose proof (Z.mod_pos_bound area 50 ltac:(lia)).
  destruct (Z.ltb_spec (area - (index * 50 + origin + 50)) 50); lia.
Qed.


Example positions_of_a_small_area :
  positions (mkMonitor 10 20 400 300) 120 60 = [(10, 20); (60, 20)].
Proof. reflexivity. Qed.

(** *** Lowkey mode *)

Lemma lowkey_geometry cfg st self monitor width height dr :
  lowkey_mode cfg = true -> lowkey_corner cfg <> 4 ->
  compute_geometry cfg st self monitor width height dr =
  Ok (mkRect
        (mon_x monitor + (if (lowkey_corner cfg =? 0) || (lowkey_corner cfg =? 3)
                          then mon_width monitor - width else 0))
        (mon_y monitor + (if (lowkey_corner cfg =? 2) || (lowkey_corner cfg =? 3)
                          then mon_height monitor - height else 0))
        width height).
Proof.
  intros Hl Hc. unfold compute_geometry. rewrite Hl.
  destruct (Z.eqb_spec (lowkey_corner cfg) 4); [contradiction|]. reflexivity.
Qed.

Lemma lowkey_random_geometry cfg st self monitor width height dr :
  lowkey_mode cfg = true -> lowkey_corner cfg = 4 ->
  exists corner, 0 <= corner <= 3 /\
    compute_geometry cfg st self monitor width height dr =
    Ok (mkRect
          (mon_x monitor + (if (corner =? 0) || (corner =? 3)
                            then mon_width monitor - width else 0))
          (mon_y monitor + (if (corner =? 2) || (corner =? 3)
                            then mon_height monitor - height else 0))
          width height).
Proof.
  intros Hl Hc. unfold compute_geometry. rewrite Hl, Hc. simpl (4 =? 4).
  cbv iota.
  destruct (randint_total 0 3 (corner_draw dr)) as (n & Hn); [lia|].
  exists n. split; [eapply randint_range; eassumption|].
  rewrite Hn. reflexivity.
Qed.

Lemma lowkey_contained cfg st self monitor width height dr :
  lowkey_mode cfg = true ->
  width <= mon_width monitor -> height <= mon_height monitor ->
  placed_inside cfg st self monitor width height dr.
Proof.
  intros Hl Hw Hh. unfold placed_inside.
  assert (Hin : forall corner,
    contained (mkRect
          (mon_x monitor + (if (corner =? 0) || (corner =? 3)
                            then mon_width monitor - width else 0))
          (mon_y monitor + (if (corner =? 2) || (corner =? 3)
                            then mon_height monitor - height else 0))
          width height) monitor).
  { intros corner. unfold contained. simpl.
    destruct ((corner =? 0) || (corner =? 3)), ((corner =? 2) || (corner =? 3)); lia. }
  destruct (Z.eq_dec (lowkey_corner cfg) 4) as [E|E].
  - destruct (lowkey_random_geometry cfg st self monitor width height dr Hl E)
      as (corner & _ & ->). eauto.
  - rewrite (lowkey_geometry cfg st self monitor width height dr Hl E). eauto.
Qed.

(** *** Grid mode *)

(** No cell, no placement: [random.choices] has nothing to choose from. *)
Lemma empty_grid_raises cfg st self monitor width height dr :
  lowkey_mode cfg = false ->
  mon_width monitor - width < side \/ mon_height monitor - height < side ->
  compute_geometry cfg st self monitor width height dr = Raise IndexError.
Proof.
  intros Hl Hs. unfold compute_geometry. rewrite Hl.
  assert (E : positions monitor (mon_width monitor - width)
                        (mon_height monitor - height) = []).
  { destruct (positions _ _ _) as [|p ps] eqn:Ep; [reflexivity|].
    assert (Hin : In p (positions monitor (mon_width monitor - width)
                                  (mon_height monitor - height)))
      by (rewrite Ep; now left).
    apply positions_In in Hin as (xi & yi & Hx & Hy & _). unfold side in *.
    destruct Hs as [Hs|Hs]; [clear Hy | clear Hx].
    + assert ((mon_width monitor - width) / 50 < 1)
        by (apply Z.div_lt_upper_bound; lia). lia.
    + assert ((mon_height monitor - height) / 50 < 1)
        by (apply Z.div_lt_upper_bound; lia). lia. }
  rewrite E. reflexivity.
Qed.

Lemma grid_contained cfg st self monitor width height dr :
  lowkey_mode cfg = false ->
  0 < width -> 0 < height ->
  side <= mon_width monitor - width -> side <= mon_height monitor - height ->
  (1 < popup_number st -> siblings st self <> []) ->
  placed_inside cfg st self monitor width height dr.
Proof.
  intros Hl Hw Hh Haw Hah Hreg. unfold placed_inside, compute_geometry. rewrite Hl.
  set (aw := mon_width monitor - width) in *.
  set (ah := mon_height monitor - height) in *.
  cbv zeta.
  destruct (mapM_Forall
              (fun p => cell_weight st self (mkRect (fst p) (snd p) width height))
              good_weight (positions monitor aw ah)) as (ws & -> & HF & HL).
  { intros p _.
    destruct (cell_weight_finite st self (mkRect (fst p) (snd p) width height))
      as (v & Ev & Hv); try assumption.
    exists (Finite v). split; [assumption|]. exists v. auto. }
  cbn [rbind].
  destruct (choices_good (positions monitor aw ah) ws (cell_draw dr))
    as (cell & -> & Hcell); auto using positions_nonempty.
  cbn [rbind].
  apply positions_In in Hcell as (xi & yi & Hx & Hy & ->). cbn [fst snd].
  destruct (span_nonempty (mon_x monitor) aw xi (x_draw dr)) as (x & Ex).
  destruct (span_nonempty (mon_y monitor) ah yi (y_draw dr)) as (y & Ey).
  cbv zeta in Ex, Ey. rewrite Ex. cbn [rbind]. rewrite Ey. cbn [rbind].
  exists (mkRect x y width height). split; [reflexivity|].
  pose proof (span_inside (mon_x monitor) aw xi (x_draw dr) x Hx Ex).
  pose proof (span_inside (mon_y monitor) ah yi (y_draw dr) y Hy Ey).
  unfold contained. simpl. subst aw ah. lia.
Qed.

(** X21.  For every monitor and every popup size: in lowkey mode, when
    the popup is no larger than the monitor in both dimensions, and in
    grid mode, when the popup has a positive size, the placement area
    (monitor size minus popup size) holds at least one 50-pixel cell in
    both dimensions and the popup is registered, lines 88-141 of
    [compute_geometry] return a rectangle that lies inside the monitor,
    whatever the random draws. *)
Theorem compute_geometry_contained cfg st self monitor width height dr :
  (lowkey_mode cfg = true ->
     width <= mon_width monitor /\ height <= mon_height monitor) ->
  (lowkey_mode cfg = false ->
     0 < width /\ 0 < height /\
     side <= mon_width monitor - width /\ side <= mon_height monitor - height /\
     registered st self) ->
  placed_inside cfg st self monitor width height dr.
Proof.
  intros Hlow Hgrid. destruct (lowkey_mode cfg) eqn:Hl.
  - destruct (Hlow eq_refl). now apply lowkey_contained.
  - destruct (Hgrid eq_refl) as (? & ? & ? & ? & ?).
    apply grid_contained; auto using registered_siblings.
Qed.

Lemma compute_geometry_contained_witness :
  (registered with_sibling 0 /\ side <= 1920 - 400 /\ side <= 1080 - 300) /\
  placed_inside grid_settings with_sibling 0 full_hd 400 300 no_draws.
Proof.
  split.
  - unfold registered, side. simpl. repeat split; lia.
  - apply compute_geometry_contained.
    + discriminate.
    + intros _. unfold registered, side. simpl. repeat split; lia.
Defined.

(** C1.  The placement fails on popups that fit their monitor.  On a
    100x100 monitor a 100x100 image drawn at 60 percent is scaled to
    60x60, no larger than the monitor: the placement area of 40x40 holds
    no cell and [compute_geometry] raises [IndexError] (the defect of
    C2).  On a 1920x1080 monitor a 1x10000 image drawn at 50 percent is
    scaled to 0x540, no larger than the monitor: with another popup open
    [compute_geometry] raises [ZeroDivisionError].  In both runs no
    rectangle is returned, whatever the other draws. *)
Theorem fitting_popup_is_not_placed dr :
  (Sizing.scaled_size grid_settings tiny_monitor 100 100 30 = Ok (60, 60) /\
   60 <= mon_width tiny_monitor /\ 60 <= mon_height tiny_monitor /\
   Sizing.compute_geometry_from grid_settings alone 0 tiny_monitor 100 100 30 dr
   = Raise IndexError /\
   ~ placed_inside grid_settings alone 0 tiny_monitor 60 60 dr) /\
  (Sizing.scaled_size grid_settings full_hd 1 10000 20 = Ok (0, 540) /\
   0 <= mon_width full_hd /\ 540 <= mon_height full_hd /\
   Sizing.compute_geometry_from grid_settings with_sibling 0 full_hd 1 10000 20 dr
   = Raise ZeroDivisionError /\
   ~ placed_inside grid_settings with_sibling 0 full_hd 0 540 dr).
Proof.
  assert (E1 : Sizing.scaled_size grid_settings tiny_monitor 100 100 30 = Ok (60, 60))
    by (vm_compute; reflexivity).
  assert (E2 : Sizing.scaled_size grid_settings full_hd 1 10000 20 = Ok (0, 540))
    by (vm_compute; reflexivity).
  assert (R1 : compute_geometry grid_settings alone 0 tiny_monitor 60 60 dr
               = Raise IndexError) by reflexivity.
  assert (R2 : compute_geometry grid_settings with_sibling 0 full_hd 0 540 dr
               = Raise ZeroDivisionError) by reflexivity.
  split.
  - split; [exact E1|]. split; [simpl; lia|]. split; [simpl; lia|]. split.
    + unfold Sizing.compute_geometry_from. rewrite E1. exact R1.
    + intros (r & Hr & _). rewrite R1 in Hr. discriminate.
  - split; [exact E2|]. split; [simpl; lia|]. split; [simpl; lia|]. split.
    + unfold Sizing.compute_geometry_from. rewrite E2. exact R2.
    + intros (r & Hr & _). rewrite R2 in Hr. discriminate.
Qed.

(** C2.  On a 100x100 monitor a 70x70 popup leaves a placement area of
    30x30, smaller than one cell: the grid has no cell and placement
    ends in [IndexError], whatever the draws. *)
Theorem small_area_placement_fails dr :
  positions tiny_monitor (100 - 70) (100 - 70) = [] /\
  compute_geometry grid_settings alone 0 tiny_monitor 70 70 dr = Raise IndexError.
Proof. split; reflexivity. Qed.






(** C4 (amended).  In lowkey mode with a corner setting other than 4 the
    placement does not depend on the draws or on the other popups, and
    the corners are numbered 0 top-right, 1 top-left, 2 bottom-left,
    3 bottom-right; setting 4 gives one of these four.  On the monitor
    (0,0,1920,1080) with popup size (300,200), corner 1 gives
    (0,0,300,200) and corner 0 gives (1620,0,300,200). *)
Theorem lowkey_corner_order cfg st self monitor width height dr :
  lowkey_mode cfg = true ->
  let placed := compute_geometry cfg st self monitor width height dr in
  (lowkey_corner cfg = 0 -> placed = Ok (rect_at TopRight monitor width height)) /\
  (lowkey_corner cfg = 1 -> placed = Ok (rect_at TopLeft monitor width height)) /\
  (lowkey_corner cfg = 2 -> placed = Ok (rect_at BottomLeft monitor width height)) /\
  (lowkey_corner cfg = 3 -> placed = Ok (rect_at BottomRight monitor width height)) /\
  (lowkey_corner cfg = 4 ->
     exists c, placed = Ok (rect_at c monitor width height)) /\
  (monitor = full_hd -> width = 300 -> height = 200 ->
     (lowkey_corner cfg = 1 -> placed = Ok (mkRect 0 0 300 200)) /\
     (lowkey_corner cfg = 0 -> placed = Ok (mkRect 1620 0 300 200))).
Proof.
  intros Hl placed. subst placed.
  assert (Hfix : forall k, k <> 4 -> lowkey_corner cfg = k ->
    compute_geometry cfg st self monitor width height dr =
    Ok (mkRect
          (mon_x monitor + (if (k =? 0) || (k =? 3) then mon_width monitor - width else 0))
          (mon_y monitor + (if (k =? 2) || (k =? 3) then mon_height monitor - height else 0))
          width height)).
  { intros k Hk E. rewrite lowkey_geometry by (assumption || congruence).
    now rewrite E. }
  repeat split.
  - intros E. rewrite (Hfix 0) by (assumption || lia).
    unfold rect_at; simpl; repeat (f_equal; try lia).
  - intros E. rewrite (Hfix 1) by (assumption || lia).
    unfold rect_at; simpl; repeat (f_equal; try lia).
  - intros E. rewrite (Hfix 2) by (assumption || lia).
    unfold rect_at; simpl; repeat (f_equal; try lia).
  - intros E. rewrite (Hfix 3) by (assumption || lia).
    unfold rect_at; simpl; repeat (f_equal; try lia).
  - intros E.
    destruct (lowkey_random_geometry cfg st self monitor width height dr Hl E)
      as (k & Hk & ->).
    assert (Hc : k = 0 \/ k = 1 \/ k = 2 \/ k = 3) by lia.
    destruct Hc as [ -> | [ -> | [ -> | -> ] ] ];
      [exists TopRight | exists TopLeft | exists BottomLeft | exists BottomRight];
      unfold rect_at; simpl; repeat (f_equal; try lia).
  - intros E. subst monitor width height.
    rewrite (Hfix 1) by (assumption || lia). reflexivity.
  - intros E. subst monitor width height.
    rewrite (Hfix 0) by (assumption || lia). reflexivity.
Qed.

Lemma lowkey_corner_order_witness :
  lowkey_mode (lowkey_settings 1) = true /\
  compute_geometry (lowkey_settings 1) alone 0 full_hd 300 200 no_draws =
  Ok (mkRect 0 0 300 200).
Proof.
  split; [reflexivity|].
  apply (lowkey_corner_order (lowkey_settings 1) alone 0 full_hd 300 200 no_draws);
    reflexivity.
Defined.

(** C4 as stated fails: corner 1 is the top-left corner, so the popup of
    the scenario is not placed at (1620,0). *)
Lemma lowkey_corner_1_is_not_top_right :
  compute_geometry (lowkey_settings 1) alone 0 full_hd 300 200 no_draws
  <> Ok (mkRect 1620 0 300 200).
Proof. discriminate. Qed.

End PlacementProps.

(** ** Movement *)

Module MovementProps.
Import Movement.

(** One axis of [move_step]. *)
Lemma axis_step lo hi V x v :
  lo <= hi -> axis_inv lo hi V x v ->
  axis_inv lo hi V (x + v) (if (x + v <=? lo) || (hi <=? x + v) then - v else v).
Proof.
  unfold axis_inv. intros Hlh (Hv & Hlo & Hhi).
  destruct (Z.leb_spec (x + v) lo), (Z.leb_spec hi (x + v)); simpl; lia.
Qed.

Lemma touches_x_axis monitor width x :
  touches_x monitor width x =
  (x <=? mon_x monitor) || (mon_x monitor + mon_width monitor - width <=? x).
Proof.
  unfold touches_x. f_equal.
  destruct (Z.leb_spec (mon_x monitor + mon_width monitor) (x + width)),
           (Z.leb_spec (mon_x monitor + mon_width monitor - width) x); lia.
Qed.

Lemma touches_y_axis monitor height y :
  touches_y monitor height y =
  (y <=? mon_y monitor) || (mon_y monitor + mon_height monitor - height <=? y).
Proof.
  unfold touches_y. f_equal.
  destruct (Z.leb_spec (mon_y monitor + mon_height monitor) (y + height)),
           (Z.leb_spec (mon_y monitor + mon_height monitor - height) y); lia.
Qed.

Lemma move_step_inv monitor width height Vx Vy m :
  width <= mon_width monitor -> height <= mon_height monitor ->
  mover_inv monitor width height Vx Vy m ->
  mover_inv monitor width height Vx Vy (move_step monitor width height m).
Proof.
  intros Hw Hh [Hx Hy]. unfold mover_inv, move_step. simpl.
  rewrite touches_x_axis, touches_y_axis.
  split; apply axis_step; assumption || lia.
Qed.

Lemma move_inv monitor width height Vx Vy n m :
  width <= mon_width monitor -> height <= mon_height monitor ->
  mover_inv monitor width height Vx Vy m ->
  mover_inv monitor width height Vx Vy (move monitor width height n m).
Proof.
  intros Hw Hh. revert m.
  induction n as [|n IH]; intros m Hm; simpl; [assumption|].
  apply IH. now apply move_step_inv.
Qed.

Lemma contained_inv monitor width height m :
  contained (applied width height m) monitor ->
  mover_inv monitor width height (Z.abs (speed_x m)) (Z.abs (speed_y m)) m.
Proof.
  unfold contained, applied, mover_inv, axis_inv. simpl. lia.
Qed.

Lemma inv_within_margin monitor width height Vx Vy m :
  mover_inv monitor width height Vx Vy m ->
  within_margin (applied width height m) monitor Vx Vy.
Proof.
  unfold mover_inv, axis_inv, within_margin, applied. simpl. lia.
Qed.

(** C6 (amended).  For a popup no larger than its monitor that starts
    inside it, with any velocity: the geometry applied by every movement
    step sticks out of the monitor by at most the absolute speed of the
    axis (one step), over any number of steps; and on each axis the
    step reverses the speed exactly when, after the advance, the
    rectangle's edge touches or crosses the monitor's boundary. *)
Theorem move_reflects monitor width height m n :
  width <= mon_width monitor -> height <= mon_height monitor ->
  contained (applied width height m) monitor ->
  let before := move monitor width height n m in
  let after := move_step monitor width height before in
  within_margin (applied width height after) monitor
                (Z.abs (speed_x m)) (Z.abs (speed_y m)) /\
  (pos_x after <= mon_x monitor \/
   mon_x monitor + mon_width monitor <= pos_x after + width ->
   speed_x after = - speed_x before) /\
  (~ (pos_x after <= mon_x monitor \/
      mon_x monitor + mon_width monitor <= pos_x after + width) ->
   speed_x after = speed_x before) /\
  (pos_y after <= mon_y monitor \/
   mon_y monitor + mon_height monitor <= pos_y after + height ->
   speed_y after = - speed_y before) /\
  (~ (pos_y after <= mon_y monitor \/
      mon_y monitor + mon_height monitor <= pos_y after + height) ->
   speed_y after = speed_y before).
Proof.
  intros Hw Hh Hc before after.
  split.
  - apply inv_within_margin. subst after before.
    apply move_step_inv; try assumption.
    apply move_inv; try assumption. now apply contained_inv.
  - subst after. unfold move_step, touches_x, touches_y. simpl.
    destruct (Z.leb_spec (pos_x before + speed_x before) (mon_x monitor)),
             (Z.leb_spec (mon_x monitor + mon_width monitor)
                         (pos_x before + speed_x before + width)),
             (Z.leb_spec (pos_y before + speed_y before) (mon_y monitor)),
             (Z.leb_spec (mon_y monitor + mon_height monitor)
                         (pos_y before + speed_y before + height));
      simpl; repeat split; intros; lia.
Qed.

Lemma move_reflects_witness :
  (300 <= 1920 /\ 200 <= 1080 /\ contained (applied 300 200 leaving_left) full_hd) /\
  within_margin (applied 300 200 (move full_hd 300 200 8 leaving_left)) full_hd 10 3.
Proof.
  split.
  - unfold contained. simpl. lia.
  - apply (move_reflects full_hd 300 200 leaving_left 7);
      unfold contained; simpl; lia.
Defined.

(** C6 as stated fails: the first step of this popup is applied at
    x = -5, left of its monitor. *)
Lemma move_leaves_monitor :
  contained (applied 300 200 leaving_left) full_hd /\
  ~ contained (applied 300 200 (move full_hd 300 200 1 leaving_left)) full_hd.
Proof.
  split; unfold contained; simpl; lia.
Qed.

(** The popup of the scenario bounces off the left edge and comes back. *)
Example leaving_left_three_steps :
  map (fun n => move full_hd 300 200 n leaving_left) [1%nat; 2%nat; 3%nat] =
  [mkMover (-5) 103 10 3; mkMover 5 106 10 3; mkMover 15 109 10 3].
Proof. reflexivity. Qed.

(** A popup that starts on the left edge and moves left never gets
    away from it: each return to the edge reverses the speed again. *)
Example stuck_on_the_edge :
  map (fun n => pos_x (move full_hd 300 200 n (mkMover 0 100 (-10) 0)))
      [1%nat; 2%nat; 3%nat; 4%nat; 5%nat] = [-10; 0; -10; 0; -10].
Proof. reflexivity. Qed.

End MovementProps.

(** ** Close, click and the side effects *)

Module LifecycleProps.
Import Lifecycle.

(** *** [list.remove] *)

Lemma list_remove_absent id l :
  occurrences id l = 0%nat -> list_remove id l = None.
Proof.
  unfold occurrences. induction l as [|p l IH]; simpl; [reflexivity|].
  destruct (win_id p =? id)%nat; simpl; [discriminate|].
  intros H. now rewrite IH.
Qed.

Lemma list_remove_once id l :
  occurrences id l = 1%nat ->
  exists l', list_remove id l = Some l' /\
             S (length l') = length l /\ occurrences id l' = 0%nat.
Proof.
  unfold occurrences. induction l as [|p l IH]; simpl; [discriminate|].
  destruct (win_id p =? id)%nat eqn:E; simpl.
  - intros [= H]. exists l. auto.
  - intros H. destruct (IH H) as (l' & -> & HL & HO).
    exists (p :: l'). simpl. rewrite E. auto.
Qed.

(** *** [close] *)

Lemma try_web_open_run env w :
  try_web_open env w = (Ok tt, with_log w (log w ++ web_events env (settings w))).
Proof.
  unfold try_web_open, web_events, with_log.
  destruct (web_on_popup_close (settings w)).
  - unfold bind, emit, when, ret. simpl.
    destruct (roll env (web_roll_chance (web_chance (settings w)))); simpl;
      rewrite <- ?app_assoc; reflexivity.
  - unfold ret. rewrite app_nil_r. now destruct w.
Qed.

Lemma close_found env w l :
  list_remove (self_id w) (popups (state w)) = Some l ->
  close env w = (Ok tt, closed_world env w l).
Proof.
  intros H. unfold close, bind at 1, decrement_popup_number, set_state.
  unfold bind at 1, remove_self. simpl. rewrite H. unfold set_state.
  unfold bind at 1. rewrite try_web_open_run.
  unfold bind, destroy, when, emit, ret, closed_world, close_events, with_log. simpl.
  destruct (has_on_close w); simpl; rewrite <- ?app_assoc; simpl;
    try rewrite <- app_assoc; reflexivity.
Qed.

Lemma close_missing env w :
  list_remove (self_id w) (popups (state w)) = None ->
  close env w = (Raise ValueError, with_popup_number w (popup_number (state w) - 1)).
Proof.
  intros H. unfold close, bind at 1, decrement_popup_number, set_state.
  unfold bind at 1, remove_self. simpl. rewrite H. reflexivity.
Qed.

Lemma count_app p l1 l2 : count p (l1 ++ l2) = (count p l1 + count p l2)%nat.
Proof. unfold count. now rewrite filter_app, length_app. Qed.

Lemma web_events_counts env cfg :
  count is_on_close (web_events env cfg) = 0%nat /\
  count is_destroy (web_events env cfg) = 0%nat /\
  count is_mitosis (web_events env cfg) = 0%nat.
Proof.
  unfold web_events.
  destruct (web_on_popup_close cfg); [|auto].
  destruct (roll env _); auto.
Qed.


Lemma close_run env w :
  registered (state w) (self_id w) ->
  exists l, close env w = (Ok tt, closed_world env w l) /\
            S (length l) = length (popups (state w)) /\
            occurrences (self_id w) l = 0%nat.
Proof.
  intros [_ Ho]. destruct (list_remove_once _ _ Ho) as (l & Hl & HL & HO).
  exists l. auto using close_found.
Qed.

(** *** [try_mitosis] and [click] *)

Lemma repeat_spawn env n w :
  repeat_m n (spawn env) w =
  (Ok tt, with_state (with_log w (log w ++ repeat EvMitosis n))
                     (Nat.iter n (mitosis_popup env) (state w))).
Proof.
  revert w. induction n as [|n IH]; intros w.
  - simpl. unfold ret, with_log, with_state. simpl. rewrite app_nil_r. now destruct w.
  - cbn [repeat_m]. unfold bind at 1. unfold spawn at 1, bind, emit, set_state.
    cbn [state log settings self_id clicks_to_close has_on_close opacity destroyed].
    rewrite IH. unfold with_log, with_state. simpl.
    rewrite <- app_assoc. simpl. f_equal. f_equal.
    symmetry. apply Nat.iter_succ_r.
Qed.

Lemma try_mitosis_run env w :
  try_mitosis env w =
  (Ok tt, with_state (with_log w (log w ++ mitosis_events (settings w)))
                     (mitosis_state env (settings w) (state w))).
Proof.
  unfold try_mitosis, mitosis_events, mitosis_state.
  destruct (mitosis_mode (settings w) && negb (lowkey_mode (settings w))).
  - apply repeat_spawn.
  - unfold ret, with_log, with_state. rewrite app_nil_r. now destruct w.
Qed.

Lemma click_pending env w :
  1 < clicks_to_close w ->
  click env w = (Ok tt, with_clicks w (clicks_to_close w - 1)).
Proof.
  intros H. unfold click, bind, set_clicks. simpl.
  destruct (Z.leb_spec (clicks_to_close w - 1) 0); [lia | reflexivity].
Qed.

(** The last click without the modifier: [close], then [try_mitosis]. *)
Lemma click_plain env w l :
  clicks_to_close w <= 1 -> alt_held (state w) = false ->
  list_remove (self_id w) (popups (state w)) = Some l ->
  click env w =
  (Ok tt, clicked_world env w l []).
Proof.
  intros Hc Ha Hl. unfold click, bind at 1, set_clicks. simpl.
  destruct (Z.leb_spec (clicks_to_close w - 1) 0); [|lia].
  unfold bind at 1. simpl. rewrite Ha. unfold when, ret.
  unfold bind. fold (with_clicks w (clicks_to_close w - 1)).
  rewrite (close_found env _ l) by exact Hl.
  rewrite try_mitosis_run.
  unfold clicked_world, with_state, with_log, closed_world, close_events. simpl.
  now rewrite <- !app_assoc.
Qed.

(** The last click with the modifier held, by the outcome of the
    blacklist side effect. *)
Lemma click_blacklist env w l :
  clicks_to_close w <= 1 -> alt_held (state w) = true ->
  list_remove (self_id w) (popups (state w)) = Some l ->
  click env w =
  match blacklist_env env with
  | BlacklistOk => (Ok tt, clicked_world env w l [EvMove; EvNotify])
  | MoveFails =>
      (Raise OSError, with_clicks w (clicks_to_close w - 1))
  | NotifyFails =>
      (Raise NotifierError,
       with_log (with_clicks w (clicks_to_close w - 1)) (log w ++ [EvMove]))
  end.
Proof.
  intros Hc Ha Hl. unfold click, bind at 1, set_clicks. simpl.
  destruct (Z.leb_spec (clicks_to_close w - 1) 0); [|lia].
  unfold bind at 1. simpl. rewrite Ha. unfold when, blacklist_media.
  fold (with_clicks w (clicks_to_close w - 1)).
  destruct (blacklist_env env).
  - unfold bind at 2. unfold emit at 1. unfold emit at 1.
    unfold bind at 1.
    match goal with
    | |- context [close env ?w0] =>
        rewrite (close_found env w0 l) by exact Hl
    end.
    rewrite try_mitosis_run.
    unfold clicked_world, with_state, with_log, closed_world, close_events. simpl.
    now rewrite <- !app_assoc.
  - reflexivity.
  - reflexivity.
Qed.


(** *** The close paths *)

Lemma close_events_counts env w :
  count is_destroy (close_events env w) = 1%nat /\
  count is_on_close (close_events env w) = (if has_on_close w then 1 else 0)%nat /\
  count is_mitosis (close_events env w) = 0%nat.
Proof.
  unfold close_events. rewrite !count_app.
  destruct (web_events_counts env (settings w)) as (-> & -> & ->).
  destruct (has_on_close w); auto.
Qed.

Lemma count_repeat p e n :
  count p (repeat e n) = if p e then n else 0%nat.
Proof.
  unfold count. induction n as [|n IH]; simpl.
  - now destruct (p e).
  - destruct (p e); simpl; now rewrite IH.
Qed.

Lemma mitosis_events_other p cfg :
  p EvMitosis = false -> count p (mitosis_events cfg) = 0%nat.
Proof.
  intros H. unfold mitosis_events. destruct (_ && _); [|reflexivity].
  now rewrite count_repeat, H.
Qed.

Lemma mitosis_events_count cfg :
  count is_mitosis (mitosis_events cfg) =
  if mitosis_mode cfg && negb (lowkey_mode cfg)
  then Z.to_nat (mitosis_strength cfg) else 0%nat.
Proof.
  unfold mitosis_events.
  destruct (mitosis_mode cfg && negb (lowkey_mode cfg)); [|reflexivity].
  now rewrite count_repeat.
Qed.

(** C5 (amended).  The click that brings [clicks_to_close] to 0 or below
    runs [close] once when the modifier key is not held or the blacklist
    side effect succeeds; when the modifier key is held and
    [blacklist_media] raises, that click runs no [close] and leaves the
    registry and the window as they are.  An earlier click runs no
    [close].  One [close] of a
    registered popup lowers [state.popup_number] by exactly 1, takes the
    popup out of [state.popups], and calls [on_close] exactly once, as
    the last effect, after [destroy].  [close] is not idempotent: a
    second [close] lowers [state.popup_number] once more and raises
    [ValueError] at [popups.remove], before any other effect, so the
    callback has still fired exactly once. *)
Theorem close_once_then_raises env w :
  registered (state w) (self_id w) ->
  let first := close env w in
  let second := close env (snd first) in
  (fst first = Ok tt /\
   popup_number (state (snd first)) = popup_number (state w) - 1 /\
   S (length (popups (state (snd first)))) = length (popups (state w)) /\
   occurrences (self_id w) (popups (state (snd first))) = 0%nat /\
   destroyed (snd first) = true /\
   log (snd first) =
     log w ++ web_events env (settings w) ++ [EvDestroy] ++
     (if has_on_close w then [EvOnClose] else [])) /\
  (fst second = Raise ValueError /\
   popup_number (state (snd second)) = popup_number (state w) - 2 /\
   popups (state (snd second)) = popups (state (snd first)) /\
   log (snd second) = log (snd first)) /\
  (1 < clicks_to_close w ->
   click env w = (Ok tt, with_clicks w (clicks_to_close w - 1))) /\
  (clicks_to_close w <= 1 ->
   alt_held (state w) = false \/ blacklist_env env = BlacklistOk ->
   fst (click env w) = Ok tt /\
   count is_destroy (log (snd (click env w))) = S (count is_destroy (log w)) /\
   count is_on_close (log (snd (click env w))) =
     (count is_on_close (log w) + (if has_on_close w then 1 else 0))%nat) /\
  (clicks_to_close w <= 1 ->
   alt_held (state w) = true -> blacklist_env env <> BlacklistOk ->
   fst (click env w) <> Ok tt /\
   state (snd (click env w)) = state w /\
   destroyed (snd (click env w)) = destroyed w /\
   count is_destroy (log (snd (click env w))) = count is_destroy (log w) /\
   count is_on_close (log (snd (click env w))) = count is_on_close (log w)).
Proof.
  intros Hreg first second.
  destruct (list_remove_once _ _ (proj2 Hreg)) as (l & Hl & HL & HO).
  assert (E1 : first = (Ok tt, closed_world env w l)) by now apply close_found.
  assert (E2 : second = (Raise ValueError,
                         with_popup_number (closed_world env w l)
                                           (popup_number (state w) - 1 - 1))).
  { subst second. rewrite E1. simpl snd.
    rewrite close_missing by (apply list_remove_absent; exact HO). reflexivity. }
  rewrite E2, E1. cbn [fst snd].
  assert (Hclosing : forall before,
            (forall e, In e before -> is_destroy e = false /\ is_on_close e = false) ->
            click env w = (Ok tt, clicked_world env w l before) ->
            fst (click env w) = Ok tt /\
            count is_destroy (log (snd (click env w))) = S (count is_destroy (log w)) /\
            count is_on_close (log (snd (click env w))) =
              (count is_on_close (log w) + (if has_on_close w then 1 else 0))%nat).
  { intros before Hb ->. cbn [fst snd clicked_world log].
    assert (Hd : count is_destroy before = 0%nat /\ count is_on_close before = 0%nat).
    { clear -Hb. induction before as [|e b IH]; [split; reflexivity|].
      destruct (Hb e (or_introl eq_refl)) as [He1 He2].
      destruct IH as [I1 I2]; [intros e' He'; apply Hb; right; exact He'|].
      unfold count in *. simpl. rewrite He1, He2. auto. }
    destruct Hd as [Hd1 Hd2].
    rewrite !count_app, Hd1, Hd2.
    destruct (close_events_counts env w) as (-> & -> & _).
    rewrite (mitosis_events_other is_destroy) by reflexivity.
    rewrite (mitosis_events_other is_on_close) by reflexivity.
    repeat split; lia. }
  split; [repeat split; simpl; try lia; assumption|].
  split; [repeat split; simpl; try lia; assumption|].
  split; [intros Hc; now apply click_pending|].
  split.
  - intros Hc Hok. destruct (alt_held (state w)) eqn:Ha.
    + destruct Hok as [Hok|Hok]; [discriminate|].
      apply (Hclosing [EvMove; EvNotify]).
      * intros e [<-|[<-|[]]]; split; reflexivity.
      * rewrite (click_blacklist env w l Hc Ha Hl), Hok. reflexivity.
    + apply (Hclosing []); [intros e []|]. now apply click_plain.
  - intros Hc Ha Hfail.
    rewrite (click_blacklist env w l Hc Ha Hl).
    destruct (blacklist_env env); [congruence| |]; cbn [fst snd].
    + repeat split; try reflexivity; discriminate.
    + repeat split; try discriminate; try reflexivity.
      * cbn [with_log log]. rewrite count_app. cbv [count filter is_destroy length]. lia.
      * cbn [with_log log]. rewrite count_app. cbv [count filter is_on_close length]. lia.
Qed.


Lemma close_once_then_raises_witness :
  registered (state (one_popup grid_settings false false)) 0 /\
  fst (close calm (one_popup grid_settings false false)) = Ok tt /\
  fst (close calm (snd (close calm (one_popup grid_settings false false))))
  = Raise ValueError.
Proof.
  assert (H : registered (state (one_popup grid_settings false false))
                         (self_id (one_popup grid_settings false false)))
    by (split; reflexivity).
  split; [exact H|].
  destruct (close_once_then_raises calm (one_popup grid_settings false false) H)
    as ((H1 & _) & (H2 & _) & _).
  split; [exact H1 | exact H2].
Defined.

(** C5 as stated fails: after two calls of [close] the counter of the
    registry has gone down by 2, not by 1, and the second call raised. *)
Lemma close_twice_differs :
  let w := one_popup grid_settings false false in
  let once := close calm w in
  let twice := (close calm >> close calm) w in
  registered (state w) (self_id w) /\
  popup_number (state (snd once)) = popup_number (state w) - 1 /\
  popup_number (state (snd twice)) <> popup_number (state w) - 1 /\
  fst once = Ok tt /\ fst twice = Raise ValueError.
Proof.
  cbv zeta. split; [split; reflexivity|].
  repeat split; try reflexivity. simpl. lia.
Qed.

(** C8 (amended).  Every close path runs [close], which for a
    registered popup lowers the counter, takes the popup out of the
    registry, rolls for the link when [web_on_popup_close] is set,
    destroys the window and then calls [on_close] when there is one: the
    pump-scare timer calls [close] and nothing else, the fade-out thread
    calls [close] and nothing else once its loop is over, and the last
    click calls [close] and then [try_mitosis].  The mitosis side effect
    ([mitosis_strength] calls when [mitosis_mode] is set and
    [lowkey_mode] is not) belongs to the click path only, after [close]
    has finished. *)
Theorem close_paths env w :
  registered (state w) (self_id w) ->
  exists l,
    S (length l) = length (popups (state w)) /\
    occurrences (self_id w) l = 0%nat /\
    close env w = (Ok tt, closed_world env w l) /\
    log (closed_world env w l) =
      log w ++ web_events env (settings w) ++ [EvDestroy] ++
      (if has_on_close w then [EvOnClose] else []) /\
    (pump_scare (state w) = true ->
       try_pump_scare env w = (Ok tt, closed_world env w l)) /\
    (forall fuel sleeping w0,
       fade_loop fuel sleeping 0 w0 = Some (Ok tt, w) ->
       fade_out env fuel sleeping w0 = Some (Ok tt, closed_world env w l)) /\
    (clicks_to_close w <= 1 -> alt_held (state w) = false ->
       click env w = (Ok tt, clicked_world env w l []) /\
       log (clicked_world env w l []) =
         log w ++ close_events env w ++ mitosis_events (settings w) /\
       state (clicked_world env w l []) =
         mitosis_state env (settings w) (state (closed_world env w l))) /\
    count is_mitosis (close_events env w) = 0%nat /\
    count is_mitosis (mitosis_events (settings w)) =
      (if mitosis_mode (settings w) && negb (lowkey_mode (settings w))
       then Z.to_nat (mitosis_strength (settings w)) else 0%nat).
Proof.
  intros Hreg.
  destruct (list_remove_once _ _ (proj2 Hreg)) as (l & Hl & HL & HO).
  pose proof (close_found env w l Hl) as Hclose.
  exists l. repeat split; try assumption.
  - intros Hp. unfold try_pump_scare, when. now rewrite Hp.
  - intros fuel sleeping w0 Hloop. unfold fade_out. now rewrite Hloop, Hclose.
  - now apply click_plain.
  - apply close_events_counts.
  - apply mitosis_events_count.
Qed.

Lemma close_paths_witness :
  registered (state (second_popup mitosis_settings false true)) 0 /\
  exists l,
    try_pump_scare calm (second_popup mitosis_settings false true) =
    (Ok tt, closed_world calm (second_popup mitosis_settings false true) l).
Proof.
  assert (H : registered (state (second_popup mitosis_settings false true))
                         (self_id (second_popup mitosis_settings false true)))
    by (split; reflexivity).
  split; [exact H|].
  destruct (close_paths calm (second_popup mitosis_settings false true) H)
    as (l & _ & _ & _ & _ & Hp & _).
  exists l. apply Hp. reflexivity.
Defined.

(** C8 as stated fails: with mitosis of strength 3 enabled, the close
    run by the pump-scare timer completes and spawns no popup. *)
Lemma pump_scare_close_spawns_nothing :
  let w := one_popup mitosis_settings false true in
  let after := try_pump_scare calm w in
  mitosis_mode (settings w) = true /\ lowkey_mode (settings w) = false /\
  mitosis_strength (settings w) = 3 /\
  fst after = Ok tt /\ destroyed (snd after) = true /\
  count is_mitosis (log (snd after)) = 0%nat /\
  count is_mitosis (log (snd after)) <> Z.to_nat (mitosis_strength (settings w)).
Proof.
  cbv zeta. repeat split; try reflexivity. discriminate.
Qed.

(** C9 (amended).  The last click with the modifier held runs the
    blacklist side effect before [close], unprotected.  When the side
    effect succeeds the click goes on to close the popup.  When the file
    move or the notification raises, the exception leaves [click]:
    [close] is not run by that click, the popup stays registered and
    its window stays as it was. *)
Theorem click_blacklist_outcomes env w :
  registered (state w) (self_id w) ->
  clicks_to_close w <= 1 -> alt_held (state w) = true ->
  let after := click env w in
  match blacklist_env env with
  | BlacklistOk =>
      fst after = Ok tt /\
      destroyed (snd after) = true /\
      (exists l,
         S (length l) = length (popups (state w)) /\
         occurrences (self_id w) l = 0%nat /\
         state (snd after) =
           mitosis_state env (settings w) (state (closed_world env w l))) /\
      log (snd after) =
        log w ++ [EvMove; EvNotify] ++ close_events env w ++ mitosis_events (settings w)
  | MoveFails =>
      fst after = Raise OSError /\
      destroyed (snd after) = destroyed w /\
      state (snd after) = state w /\
      log (snd after) = log w
  | NotifyFails =>
      fst after = Raise NotifierError /\
      destroyed (snd after) = destroyed w /\
      state (snd after) = state w /\
      log (snd after) = log w ++ [EvMove]
  end.
Proof.
  intros Hreg Hc Ha after.
  destruct (list_remove_once _ _ (proj2 Hreg)) as (l & Hl & HL & HO).
  subst after. rewrite (click_blacklist env w l Hc Ha Hl).
  destruct (blacklist_env env); simpl; repeat split; try reflexivity.
  exists l. auto.
Qed.

Lemma click_blacklist_outcomes_witness :
  (registered (state (one_popup grid_settings true false)) 0 /\
   clicks_to_close (one_popup grid_settings true false) <= 1 /\
   alt_held (state (one_popup grid_settings true false)) = true) /\
  fst (click calm (one_popup grid_settings true false)) = Ok tt.
Proof.
  assert (H : registered (state (one_popup grid_settings true false))
                         (self_id (one_popup grid_settings true false)))
    by (split; reflexivity).
  split; [split; [exact H | split; [simpl; lia | reflexivity]]|].
  apply (click_blacklist_outcomes calm (one_popup grid_settings true false) H);
    [simpl; lia | reflexivity].
Defined.

(** C9 as stated fails: when the file move fails, the click that should
    close the popup raises, and the popup is still registered and its
    window is still there. *)
Lemma failed_blacklist_blocks_close :
  let w := one_popup grid_settings true false in
  let after := click failing_disk w in
  clicks_to_close w - 1 <= 0 /\
  fst after = Raise OSError /\
  fst after <> Ok tt /\
  destroyed (snd after) = false /\
  state (snd after) = state w /\
  count is_destroy (log (snd after)) = 0%nat.
Proof.
  cbv zeta. repeat split; try reflexivity; try discriminate.
Qed.

(** C10.  Every [close] of a registered popup with
    [web_on_popup_close] set calls [roll] once, on
    [(100 - web_chance) / 2], and [open_web] follows exactly when the
    roll succeeds; the chance that is rolled gets smaller as
    [web_chance] grows. *)
Theorem web_open_roll env w :
  registered (state w) (self_id w) ->
  web_on_popup_close (settings w) = true ->
  let chance := web_roll_chance (web_chance (settings w)) in
  (chance == (100 - inject_Z (web_chance (settings w))) / 2)%Q /\
  (exists l,
     close env w = (Ok tt, closed_world env w l) /\
     log (closed_world env w l) =
       log w ++ [EvRoll chance (roll env chance)] ++
       (if roll env chance then [EvOpenWeb] else []) ++ [EvDestroy] ++
       (if has_on_close w then [EvOnClose] else [])) /\
  count is_roll (close_events env w) = 1%nat /\
  count is_open_web (close_events env w) = (if roll env chance then 1 else 0)%nat /\
  (forall a b, a < b -> (web_roll_chance b < web_roll_chance a)%Q).
Proof.
  intros Hreg Hweb chance.
  destruct (list_remove_once _ _ (proj2 Hreg)) as (l & Hl & HL & HO).
  split; [|split; [|split; [|split]]].
  - subst chance. unfold web_roll_chance, Qeq, Qminus, Qdiv, Qmult, Qplus, Qopp, Qinv.
    cbn [Qnum Qden inject_Z Pos.mul]. lia.
  - exists l. split; [now apply close_found|].
    unfold closed_world, close_events, web_events. simpl. rewrite Hweb.
    fold chance. simpl. reflexivity.
  - unfold close_events, web_events. rewrite Hweb. fold chance.
    rewrite !count_app.
    destruct (roll env chance), (has_on_close w); reflexivity.
  - unfold close_events, web_events. rewrite Hweb. fold chance.
    destruct (roll env chance), (has_on_close w); reflexivity.
  - intros a b Hab. unfold web_roll_chance, Qlt. cbn [Qnum Qden]. lia.
Qed.

Lemma web_open_roll_witness :
  (registered (state (one_popup mitosis_settings false false)) 0 /\
   web_on_popup_close (settings (one_popup mitosis_settings false false)) = true) /\
  (web_roll_chance 20 == 40)%Q /\
  count is_roll (close_events calm (one_popup mitosis_settings false false)) = 1%nat.
Proof.
  assert (H : registered (state (one_popup mitosis_settings false false))
                         (self_id (one_popup mitosis_settings false false)))
    by (split; reflexivity).
  split; [split; [exact H | reflexivity]|].
  split; [reflexivity|].
  apply (web_open_roll calm (one_popup mitosis_settings false false) H).
  reflexivity.
Defined.


(** *** The fade-out *)

(** All whole percentages, by evaluation of the binary64 operations. *)
Lemma fade_check_all : forallb fade_check (seq 0 101) = true.
Proof. vm_compute. reflexivity. Qed.

Lemma fade_ticks_bounds k : (k <= fade_ticks k <= S k)%nat.
Proof. unfold fade_ticks. destruct (PrimFloat.ltb _ _); lia. Qed.

Lemma fade_profile_whole_percent k :
  (k <= 100)%nat ->
  (forall i, (i < fade_ticks k)%nat ->
     PrimFloat.ltb 0 (opacity_after i (percent k)) = true /\
     PrimFloat.ltb (opacity_after (S i) (percent k)) (opacity_after i (percent k)) = true) /\
  PrimFloat.ltb 0 (opacity_after (fade_ticks k) (percent k)) = false.
Proof.
  intros Hk.
  pose proof fade_check_all as H. rewrite forallb_forall in H.
  specialize (H k). rewrite in_seq in H. specialize (H ltac:(lia)).
  unfold fade_check, fade_profile in H.
  apply andb_true_iff in H as [Hall Hend]. split.
  - intros i Hi. rewrite forallb_forall in Hall.
    specialize (Hall i). rewrite in_seq in Hall. specialize (Hall ltac:(lia)).
    now apply andb_true_iff in Hall.
  - now apply negb_true_iff in Hend.
Qed.

Lemma ticks_fields n w :
  settings (ticks n w) = settings w /\ state (ticks n w) = state w /\
  self_id (ticks n w) = self_id w /\ clicks_to_close (ticks n w) = clicks_to_close w /\
  has_on_close (ticks n w) = has_on_close w /\ destroyed (ticks n w) = destroyed w /\
  opacity (ticks n w) = opacity_after n (opacity w) /\
  log (ticks n w) = log w ++ alphas n (opacity w).
Proof.
  induction n as [|n IH]; simpl.
  - unfold alphas. simpl. rewrite app_nil_r. tauto.
  - destruct IH as (-> & -> & -> & -> & -> & -> & -> & ->).
    repeat split. unfold alphas. rewrite seq_S, map_app. simpl.
    now rewrite <- app_assoc.
Qed.

Lemma opacity_after_front i o :
  opacity_after (S i) o = opacity_after i (PrimFloat.sub o step).
Proof. induction i as [|i IH]; simpl in *; [reflexivity | now rewrite IH]. Qed.

Lemma ticks_front n w : ticks (S n) w = ticks n (tick w).
Proof. induction n as [|n IH]; simpl in *; [reflexivity | now rewrite IH]. Qed.

Lemma fade_loop_tick fuel sleeping n w :
  destroyed w = false -> PrimFloat.ltb 0 (opacity w) = true ->
  fade_loop (S fuel) sleeping n w = fade_loop fuel sleeping (S n) (sleeping n (tick w)).
Proof.
  intros Hd Ho. simpl. rewrite Ho.
  unfold bind, set_opacity, attributes_alpha, emit, tick. simpl.
  rewrite Hd. reflexivity.
Qed.

Lemma fade_loop_end fuel sleeping n w :
  PrimFloat.ltb 0 (opacity w) = false ->
  fade_loop (S fuel) sleeping n w = Some (Ok tt, w).
Proof. intros Ho. simpl. now rewrite Ho. Qed.

Lemma fade_loop_destroyed fuel sleeping n w :
  destroyed w = true -> PrimFloat.ltb 0 (opacity w) = true ->
  exists w', fade_loop (S fuel) sleeping n w = Some (Raise TclError, w') /\
             log w' = log w /\ state w' = state w /\
             opacity w' = PrimFloat.sub (opacity w) step.
Proof.
  intros Hd Ho. simpl. rewrite Ho.
  unfold bind, set_opacity, attributes_alpha, raise. simpl. rewrite Hd.
  eexists. split; [reflexivity|]. simpl. auto.
Qed.

(** [m] ticks during which nothing else happens. *)
Lemma fade_loop_prefix m fuel sleeping n w :
  destroyed w = false ->
  (forall i, (i < m)%nat -> PrimFloat.ltb 0 (opacity_after i (opacity w)) = true) ->
  (forall i x, (i < m)%nat -> sleeping (n + i)%nat x = x) ->
  fade_loop (m + fuel) sleeping n w = fade_loop fuel sleeping (n + m) (ticks m w).
Proof.
  revert n w. induction m as [|m IH]; intros n w Hd Hpos Hid.
  - simpl. now rewrite Nat.add_0_r.
  - cbn [Nat.add]. rewrite fade_loop_tick; [|assumption | apply (Hpos 0%nat); lia].
    replace (sleeping n (tick w)) with (tick w)
      by (symmetry; rewrite <- (Nat.add_0_r n) at 1; apply Hid; lia).
    rewrite IH.
    + rewrite <- ticks_front. f_equal. lia.
    + assumption.
    + intros i Hi. simpl opacity. rewrite <- opacity_after_front. apply Hpos. lia.
    + intros i x Hi. replace (S n + i)%nat with (n + S i)%nat by lia. apply Hid. lia.
Qed.


#[local] Arguments ticks : simpl never.

Lemma alphas_counts n o :
  count is_alpha (alphas n o) = n /\ count is_destroy (alphas n o) = 0%nat /\
  count is_on_close (alphas n o) = 0%nat.
Proof.
  unfold alphas, count.
  assert (H : forall s,
    length (filter is_alpha (map (fun i => EvAlpha (opacity_after (S i) o)) (seq s n))) = n /\
    length (filter is_destroy (map (fun i => EvAlpha (opacity_after (S i) o)) (seq s n))) = 0%nat /\
    length (filter is_on_close (map (fun i => EvAlpha (opacity_after (S i) o)) (seq s n))) = 0%nat).
  { induction n as [|n IH]; intros s; [simpl; auto|].
    destruct (IH (S s)) as (H1 & H2 & H3).
    cbn [seq map filter is_alpha is_destroy is_on_close length].
    rewrite H1, H2, H3. auto. }
  apply H.
Qed.

Lemma close_events_no_alpha env w : count is_alpha (close_events env w) = 0%nat.
Proof.
  unfold close_events, web_events. rewrite !count_app.
  destruct (web_on_popup_close _); [destruct (roll env _)|];
    destruct (has_on_close w); reflexivity.
Qed.

Lemma close_events_ticks env n w : close_events env (ticks n w) = close_events env w.
Proof.
  unfold close_events.
  destruct (ticks_fields n w) as (-> & _ & _ & _ & -> & _). reflexivity.
Qed.

(** The fade-out thread when nothing else touches the popup. *)
Lemma fade_out_undisturbed env w n fuel :
  destroyed w = false ->
  (forall i, (i < n)%nat -> PrimFloat.ltb 0 (opacity_after i (opacity w)) = true) ->
  PrimFloat.ltb 0 (opacity_after n (opacity w)) = false ->
  registered (state w) (self_id w) ->
  exists l,
    fade_out env (n + S fuel) undisturbed w = Some (Ok tt, closed_world env (ticks n w) l) /\
    log (closed_world env (ticks n w) l) =
      log w ++ alphas n (opacity w) ++ close_events env w.
Proof.
  intros Hd Hpos Hend Hreg.
  destruct (ticks_fields n w) as (Hs & Hst & Hid & Hc & Hh & Hdd & Ho & Hlog).
  destruct (list_remove_once _ _ (proj2 Hreg)) as (l & Hl & _ & _).
  exists l. unfold fade_out.
  rewrite fade_loop_prefix by (assumption || reflexivity).
  rewrite fade_loop_end by (now rewrite Ho).
  rewrite (close_found env (ticks n w) l) by (now rewrite Hst, Hid).
  split; [reflexivity|].
  unfold closed_world. simpl. rewrite Hlog, close_events_ticks.
  now rewrite <- app_assoc.
Qed.

(** The fade-out thread when the user closes the popup with a click
    during the [j]-th sleep and a tick is still due: the tick fails on
    the destroyed window and the thread ends. *)
Lemma fade_out_clicked env w n j fuel :
  destroyed w = false ->
  (forall i, (i < n)%nat -> PrimFloat.ltb 0 (opacity_after i (opacity w)) = true) ->
  (S j < n)%nat ->
  registered (state w) (self_id w) ->
  clicks_to_close w <= 1 -> alt_held (state w) = false ->
  exists w',
    fade_out env (j + S (S fuel)) (clicked_during env j) w = Some (Ok tt, w') /\
    log w' = log w ++ alphas (S j) (opacity w) ++ close_events env w
                   ++ mitosis_events (settings w).
Proof.
  intros Hd Hpos Hj Hreg Hc Ha.
  destruct (ticks_fields j w) as (_ & _ & _ & _ & _ & Hdj & Hoj & _).
  destruct (ticks_fields (S j) w) as (Hs & Hst & Hid & Hcl & Hh & Hdd & Ho & Hlog).
  destruct (list_remove_once _ _ (proj2 Hreg)) as (l & Hl & _ & HO).
  unfold fade_out.
  rewrite fade_loop_prefix; try assumption.
  2:{ intros i Hi. apply Hpos. lia. }
  2:{ intros i x Hi. unfold clicked_during. simpl.
      destruct (Nat.eqb_spec i j); [lia | reflexivity]. }
  rewrite fade_loop_tick; [| now rewrite Hdj | rewrite Hoj; apply Hpos; lia].
  change (tick (ticks j w)) with (ticks (S j) w).
  unfold clicked_during at 2. simpl (0 + j)%nat. rewrite Nat.eqb_refl.
  rewrite (click_plain env (ticks (S j) w) l);
    [| now rewrite Hcl | now rewrite Hst | now rewrite Hst, Hid].
  cbn [snd].
  match goal with
  | |- context [fade_loop _ _ _ ?wc] =>
      destruct (fade_loop_destroyed fuel (clicked_during env j) (S j) wc)
        as (w' & -> & Hlog' & Hst' & _)
  end.
  - reflexivity.
  - simpl. rewrite ?Ho, ?Hoj. apply (Hpos (S j)). lia.
  - exists w'. split; [reflexivity|].
    rewrite Hlog'. cbn [log clicked_world app].
    rewrite Hlog, Hs, close_events_ticks.
    now rewrite <- !app_assoc.
Qed.

(** The same click during the last sleep: the loop is over, so the
    thread calls [close] on the popup that the click has closed. *)
Lemma fade_out_clicked_last env w n fuel :
  destroyed w = false ->
  (forall i, (i <= n)%nat -> PrimFloat.ltb 0 (opacity_after i (opacity w)) = true) ->
  PrimFloat.ltb 0 (opacity_after (S n) (opacity w)) = false ->
  registered (state w) (self_id w) ->
  clicks_to_close w <= 1 -> alt_held (state w) = false ->
  mitosis_mode (settings w) = false ->
  exists w',
    fade_out env (n + S (S fuel)) (clicked_during env n) w = Some (Raise ValueError, w') /\
    popup_number (state w') = popup_number (state w) - 2.
Proof.
  intros Hd Hpos Hend Hreg Hc Ha Hm.
  destruct (ticks_fields n w) as (_ & _ & _ & _ & _ & Hdj & Hoj & _).
  destruct (ticks_fields (S n) w) as (Hs & Hst & Hid & Hcl & Hh & Hdd & Ho & Hlog).
  destruct (list_remove_once _ _ (proj2 Hreg)) as (l & Hl & _ & HO).
  unfold fade_out.
  rewrite fade_loop_prefix; try assumption.
  2:{ intros i Hi. apply Hpos. lia. }
  2:{ intros i x Hi. unfold clicked_during. simpl.
      destruct (Nat.eqb_spec i n); [lia | reflexivity]. }
  rewrite fade_loop_tick; [| now rewrite Hdj | rewrite Hoj; apply Hpos; lia].
  change (tick (ticks n w)) with (ticks (S n) w).
  unfold clicked_during at 2. simpl (0 + n)%nat. rewrite Nat.eqb_refl.
  rewrite (click_plain env (ticks (S n) w) l);
    [| now rewrite Hcl | now rewrite Hst | now rewrite Hst, Hid].
  cbn [snd].
  assert (Est : state (clicked_world env (ticks (S n) w) l []) =
                mkState (popup_number (state w) - 1) l
                        (alt_held (state w)) (pump_scare (state w))).
  { cbn [state clicked_world]. unfold mitosis_state. now rewrite Hs, Hm, Hst. }
  rewrite fade_loop_end by (cbn [opacity clicked_world]; now rewrite Ho).
  rewrite close_missing.
  - eexists. split; [reflexivity|].
    cbn [state with_popup_number popup_number]. rewrite Est. simpl. lia.
  - rewrite Est. cbn [self_id clicked_world popups]. rewrite Hid.
    now apply list_remove_absent.
Qed.


(** C7 (amended).  For an opacity setting of a whole percentage
    [k / 100]: every tick of the fade-out replaces the opacity by the
    binary64 difference [opacity - 0.01], which is strictly smaller; the
    ticks stop at the first opacity that is not above 0 (after [k] or
    [k + 1] ticks; that opacity need not be 0), and then [close] runs
    exactly once.  If the popup is closed by a click while the thread
    sleeps and a tick is still due, that tick fails on the destroyed
    window: no further opacity is applied and the thread ends without
    calling [close]. *)
Theorem fade_out_whole_percent env w k :
  (k <= 100)%nat -> opacity w = percent k -> destroyed w = false ->
  registered (state w) (self_id w) ->
  let N := fade_ticks k in
  (k <= N <= S k)%nat /\
  (forall i, (i < N)%nat ->
     PrimFloat.ltb 0 (opacity_after i (percent k)) = true /\
     opacity_after (S i) (percent k) = PrimFloat.sub (opacity_after i (percent k)) step /\
     PrimFloat.ltb (opacity_after (S i) (percent k)) (opacity_after i (percent k)) = true) /\
  PrimFloat.ltb 0 (opacity_after N (percent k)) = false /\
  (exists l,
     fade_out env 102 undisturbed w = Some (Ok tt, closed_world env (ticks N w) l) /\
     log (closed_world env (ticks N w) l) =
       log w ++ alphas N (percent k) ++ close_events env w /\
     count is_alpha (alphas N (percent k) ++ close_events env w) = N /\
     count is_destroy (alphas N (percent k) ++ close_events env w) = 1%nat /\
     count is_on_close (alphas N (percent k) ++ close_events env w) =
       (if has_on_close w then 1 else 0)%nat) /\
  (forall j, (S j < N)%nat -> clicks_to_close w <= 1 -> alt_held (state w) = false ->
     exists w',
       fade_out env 102 (clicked_during env j) w = Some (Ok tt, w') /\
       log w' = log w ++ alphas (S j) (percent k) ++ close_events env w
                      ++ mitosis_events (settings w) /\
       count is_alpha (alphas (S j) (percent k) ++ close_events env w
                         ++ mitosis_events (settings w)) = S j /\
       count is_destroy (alphas (S j) (percent k) ++ close_events env w
                           ++ mitosis_events (settings w)) = 1%nat).
Proof.
  intros Hk Ho Hd Hreg N.
  destruct (fade_profile_whole_percent k Hk) as [Hprof Hend]. fold N in Hprof, Hend.
  pose proof (fade_ticks_bounds k) as HN. fold N in HN.
  split; [exact HN|]. split; [|split; [exact Hend|split]].
  - intros i Hi. destruct (Hprof i Hi). auto.
  - destruct (fade_out_undisturbed env w N (101 - N)) as (l & Hrun & Hlog);
      try assumption; rewrite ?Ho; try assumption.
    { intros i Hi. now apply Hprof. }
    exists l. replace 102%nat with (N + S (101 - N))%nat by lia.
    rewrite Ho in Hlog. split; [exact Hrun|]. split; [exact Hlog|].
    rewrite !count_app.
    destruct (alphas_counts N (percent k)) as (-> & -> & ->).
    destruct (close_events_counts env w) as (-> & -> & _).
    rewrite close_events_no_alpha. repeat split; lia.
  - intros j Hj Hc Ha.
    destruct (fade_out_clicked env w N j (100 - j)) as (w' & Hrun & Hlog);
      try assumption.
    { intros i Hi. rewrite Ho. now apply Hprof. }
    exists w'. replace 102%nat with (j + S (S (100 - j)))%nat by lia.
    rewrite Ho in Hlog. split; [exact Hrun|]. split; [exact Hlog|].
    rewrite !count_app.
    destruct (alphas_counts (S j) (percent k)) as (-> & -> & _).
    destruct (close_events_counts env w) as (-> & _ & _).
    rewrite close_events_no_alpha.
    rewrite (mitosis_events_other is_alpha), (mitosis_events_other is_destroy)
      by reflexivity.
    split; lia.
Qed.

Lemma fade_out_whole_percent_witness :
  ((100 <= 100)%nat /\ opacity fading_popup = percent 100 /\
   destroyed fading_popup = false /\
   registered (state fading_popup) (self_id fading_popup)) /\
  PrimFloat.ltb 0 (opacity_after (fade_ticks 100) (percent 100)) = false.
Proof.
  assert (H : registered (state fading_popup) (self_id fading_popup))
    by (split; reflexivity).
  split; [repeat split; auto|].
  apply (fade_out_whole_percent calm fading_popup 100 (le_n 100) eq_refl eq_refl H).
Defined.

(** C7 as stated fails: from opacity 1.0 the first tick lowers the
    opacity by a little more than 0.01, the 100 ticks never meet 0 and
    the loop ends below 0; from opacity 0.1 the loop needs an 11th tick,
    which takes the opacity from about 1e-17 down to about -0.01. *)
Lemma fade_misses_zero :
  PrimFloat.eqb (percent 100 - opacity_after 1 (percent 100))%float step = false /\
  forallb (fun i => negb (PrimFloat.eqb (opacity_after i (percent 100)) 0))
          (seq 0 101) = true /\
  fade_ticks 100 = 100%nat /\
  PrimFloat.ltb (opacity_after 100 (percent 100)) 0 = true /\
  fade_ticks 10 = 11%nat /\
  PrimFloat.ltb 0 (opacity_after 10 (percent 10)) = true /\
  PrimFloat.ltb (opacity_after 11 (percent 10)) (-0x1p-7)%float = true /\
  match fade_out calm 102 undisturbed fading_popup with
  | Some (Ok _, w') => PrimFloat.ltb (opacity w') 0
  | _ => false
  end = true.
Proof. vm_compute. repeat split. Qed.

(** The timer of [try_timeout] starts the fade-out only when the timeout
    is enabled and no pump scare is on. *)
Lemma try_timeout_gate env fuel sleeping w :
  try_timeout env fuel sleeping w =
  if timeout_enabled (settings w) && negb (pump_scare (state w))
  then fade_out env fuel sleeping w
  else Some (Ok tt, w).
Proof. reflexivity. Qed.

(** The fade-out of the scenario, end to end: 100 opacities applied,
    then the events of [close]. *)
Example fading_popup_run :
  match try_timeout calm 102 undisturbed fading_popup with
  | Some (Ok _, w') =>
      (count is_alpha (log w') =? 100)%nat && (count is_destroy (log w') =? 1)%nat &&
      (count is_on_close (log w') =? 1)%nat && destroyed w' &&
      (popup_number (state w') =? 0) && (length (popups (state w')) =? 0)%nat
  | _ => false
  end = true.
Proof. vm_compute. reflexivity. Qed.

End LifecycleProps.

(** * Further properties of the code *)

(** ** Movement over many steps *)

Module MovementMore.
Import Movement.

(** X1.  A step reverses a speed or keeps it: the popup never gets faster
    or slower, whatever the monitor and wherever it is. *)
Theorem move_keeps_speed monitor width height n m :
  Z.abs (speed_x (move monitor width height n m)) = Z.abs (speed_x m) /\
  Z.abs (speed_y (move monitor width height n m)) = Z.abs (speed_y m).
Proof.
  revert m. induction n as [|n IH]; intros m; simpl; [auto|].
  destruct (IH (move_step monitor width height m)) as [-> ->].
  unfold move_step. simpl.
  destruct (touches_x monitor width _), (touches_y monitor height _); lia.
Qed.

Lemma step_at_left monitor width height m :
  pos_x m + speed_x m <= mon_x monitor ->
  pos_x (move_step monitor width height m) = pos_x m + speed_x m /\
  speed_x (move_step monitor width height m) = - speed_x m.
Proof.
  intros H. unfold move_step, touches_x. simpl.
  destruct (Z.leb_spec (pos_x m + speed_x m) (mon_x monitor)); [|lia].
  simpl. auto.
Qed.

Lemma step_at_right monitor width height m :
  mon_x monitor + mon_width monitor <= pos_x m + speed_x m + width ->
  pos_x (move_step monitor width height m) = pos_x m + speed_x m /\
  speed_x (move_step monitor width height m) = - speed_x m.
Proof.
  intros H. unfold move_step, touches_x. simpl.
  destruct (Z.leb_spec (mon_x monitor + mon_width monitor)
                       (pos_x m + speed_x m + width)); [|lia].
  rewrite orb_true_r. auto.
Qed.

(** Two states of one axis that a step exchanges. *)
Lemma edge_two_cycle monitor width height n :
  forall m,
    (pos_x m <= mon_x monitor -> pos_x m + speed_x m <= mon_x monitor ->
     pos_x (move monitor width height n m) =
       (if Nat.even n then pos_x m else pos_x m + speed_x m) /\
     speed_x (move monitor width height n m) =
       (if Nat.even n then speed_x m else - speed_x m)) /\
    (mon_x monitor + mon_width monitor <= pos_x m + width ->
     mon_x monitor + mon_width monitor <= pos_x m + speed_x m + width ->
     pos_x (move monitor width height n m) =
       (if Nat.even n then pos_x m else pos_x m + speed_x m) /\
     speed_x (move monitor width height n m) =
       (if Nat.even n then speed_x m else - speed_x m)).
Proof.
  induction n as [n IH] using (well_founded_induction lt_wf). intros m.
  destruct n as [|[|n]].
  - simpl. auto.
  - cbn [move Nat.even]. split; intros H0 H1.
    + now apply step_at_left.
    + now apply step_at_right.
  - change (move monitor width height (S (S n)) m)
      with (move monitor width height n
              (move_step monitor width height (move_step monitor width height m))).
    cbn [Nat.even].
    split; intros H0 H1.
    + destruct (step_at_left monitor width height m H1) as [Ep1 Es1].
      destruct (step_at_left monitor width height (move_step monitor width height m))
        as [Ep2 Es2]; [rewrite Ep1, Es1; lia|].
      assert (Ep : pos_x (move_step monitor width height
                            (move_step monitor width height m)) = pos_x m) by lia.
      assert (Es : speed_x (move_step monitor width height
                              (move_step monitor width height m)) = speed_x m) by lia.
      destruct (IH n ltac:(lia)
                  (move_step monitor width height (move_step monitor width height m)))
        as [Hl _].
      rewrite Ep, Es in Hl. apply Hl; assumption.
    + destruct (step_at_right monitor width height m H1) as [Ep1 Es1].
      destruct (step_at_right monitor width height (move_step monitor width height m))
        as [Ep2 Es2]; [rewrite Ep1, Es1; lia|].
      assert (Ep : pos_x (move_step monitor width height
                            (move_step monitor width height m)) = pos_x m) by lia.
      assert (Es : speed_x (move_step monitor width height
                              (move_step monitor width height m)) = speed_x m) by lia.
      destruct (IH n ltac:(lia)
                  (move_step monitor width height (move_step monitor width height m)))
        as [_ Hr].
      rewrite Ep, Es in Hr. apply Hr; assumption.
Qed.

(** X2.  A popup whose left edge is on the monitor's left edge and that
    moves left (or whose right edge is on the right edge and that moves
    right) never comes off that edge: its horizontal position only
    alternates between the edge and one step outside of it, for ever. *)
Theorem edge_start_oscillates monitor width height m n :
  (pos_x m = mon_x monitor /\ speed_x m < 0) \/
  (pos_x m + width = mon_x monitor + mon_width monitor /\ 0 < speed_x m) ->
  pos_x (move monitor width height n m) =
    (if Nat.even n then pos_x m else pos_x m + speed_x m).
Proof.
  destruct (edge_two_cycle monitor width height n m) as [Hl Hr].
  intros [[Hx Hv]|[Hx Hv]].
  - apply Hl; lia.
  - apply Hr; lia.
Qed.

Lemma edge_start_oscillates_witness :
  (pos_x (mkMover 0 100 (-10) 3) = mon_x full_hd /\ speed_x (mkMover 0 100 (-10) 3) < 0) /\
  pos_x (move full_hd 300 200 7 (mkMover 0 100 (-10) 3)) = -10.
Proof.
  split; [split; [reflexivity | reflexivity]|].
  apply (edge_start_oscillates full_hd 300 200 (mkMover 0 100 (-10) 3) 7).
  left. split; reflexivity.
Defined.

End MovementMore.

(** ** The first speed *)

Module SpeedProps.
Import Speed.

Lemma randint_drawn moving_speed d :
  0 <= moving_speed ->
  randint (- moving_speed) moving_speed d =
  Ok (- moving_speed + d mod (moving_speed - - moving_speed + 1)).
Proof.
  intros H. unfold randint.
  destruct (Z.ltb_spec moving_speed (- moving_speed)); [lia | reflexivity].
Qed.

Lemma pick_speed_pass fuel moving_speed draws n :
  0 <= moving_speed ->
  pick_speed (S fuel) moving_speed draws n 0 0 =
  pick_speed fuel moving_speed draws (S n)
             (fst (drawn moving_speed draws n)) (snd (drawn moving_speed draws n)).
Proof.
  intros H. cbn [pick_speed]. simpl (_ && _).
  now rewrite !randint_drawn by assumption.
Qed.

Lemma pick_speed_skips fuel moving_speed draws k :
  0 <= moving_speed ->
  forall n,
    (forall i, (n <= i < n + k)%nat -> still (drawn moving_speed draws i) = true) ->
    pick_speed (k + fuel) moving_speed draws n 0 0 =
    pick_speed fuel moving_speed draws (n + k) 0 0.
Proof.
  intros Hs. induction k as [|k IH]; intros n Hstill.
  - now rewrite Nat.add_0_r.
  - change (S k + fuel)%nat with (S (k + fuel)).
    rewrite pick_speed_pass by assumption.
    assert (H0 : still (drawn moving_speed draws n) = true) by (apply Hstill; lia).
    unfold still in H0. apply andb_true_iff in H0 as [Hx Hy].
    apply Z.eqb_eq in Hx, Hy. rewrite Hx, Hy.
    replace (n + S k)%nat with (S n + k)%nat by lia.
    apply (IH (S n)). intros i Hi. apply Hstill. lia.
Qed.

(** X3.  With a chance that is not 0 and a positive speed, the loop ends at
    the first pass whose two draws are not both 0, and returns them:
    each within [-moving_speed .. moving_speed], not both 0. *)
Theorem initial_speed_first_moving moving_chance moving_speed draws k fuel :
  moving_chance <> 0 -> 0 < moving_speed ->
  (forall i, (i < k)%nat -> still (drawn moving_speed draws i) = true) ->
  still (drawn moving_speed draws k) = false ->
  let v := drawn moving_speed draws k in
  initial_speed (S (S k) + fuel) moving_chance moving_speed draws = Some (Ok v) /\
  - moving_speed <= fst v <= moving_speed /\
  - moving_speed <= snd v <= moving_speed /\
  (fst v <> 0 \/ snd v <> 0).
Proof.
  intros Hc Hs Hstill Hk v. unfold initial_speed.
  destruct (Z.eqb_spec moving_chance 0); [contradiction|].
  split.
  - replace (S (S k) + fuel)%nat with (k + S (S fuel))%nat by lia.
    rewrite pick_speed_skips by (try lia; intros i Hi; apply Hstill; lia).
    rewrite pick_speed_pass by lia. cbn [Nat.add pick_speed]. fold v.
    unfold still in Hk. fold v in Hk. rewrite Hk. now destruct v.
  - unfold still in Hk. subst v. unfold drawn in *. cbn [fst snd] in *.
    pose proof (Z.mod_pos_bound (fst (draws k)) (moving_speed - - moving_speed + 1)
                                ltac:(lia)).
    pose proof (Z.mod_pos_bound (snd (draws k)) (moving_speed - - moving_speed + 1)
                                ltac:(lia)).
    repeat split; lia.
Qed.

Lemma initial_speed_first_moving_witness :
  (7 <> 0 /\ 0 < 5 /\ still (drawn 5 third_time_lucky 2) = false) /\
  initial_speed 4 7 5 third_time_lucky = Some (Ok (3, -2)).
Proof.
  split; [repeat split; try lia; discriminate|].
  apply (initial_speed_first_moving 7 5 third_time_lucky 2 0); try lia.
  - intros i Hi. destruct i as [|[|i]]; try reflexivity. lia.
  - reflexivity.
Defined.

(** X4.  A speed setting of 0 with a chance that is not 0 leaves the loop no
    way out: [randint(0, 0)] is 0 on every pass and the thread spins. *)
Theorem initial_speed_zero_spins moving_chance draws fuel :
  initial_speed fuel moving_chance 0 draws = None.
Proof.
  unfold initial_speed.
  replace (if moving_chance =? 0 then 0 else 0) with 0 by (destruct (_ =? _); reflexivity).
  generalize 0%nat. induction fuel as [|fuel IH]; intros n; [reflexivity|].
  cbn [pick_speed]. simpl (_ && _). unfold randint. simpl.
  rewrite !Z.mod_1_r. apply IH.
Qed.

(** X5.  A negative speed setting with a chance that is not 0 ends the
    thread at the first draw: the range of [randint] is empty. *)
Theorem initial_speed_negative_raises moving_chance moving_speed draws fuel :
  moving_chance <> 0 -> moving_speed < 0 ->
  initial_speed (S fuel) moving_chance moving_speed draws = Some (Raise ValueError).
Proof.
  intros Hc Hs. unfold initial_speed.
  destruct (Z.eqb_spec moving_chance 0); [contradiction|].
  cbn [pick_speed]. simpl (_ && _). unfold randint.
  destruct (Z.ltb_spec moving_speed (- moving_speed)); [reflexivity | lia].
Qed.

Lemma initial_speed_negative_raises_witness :
  (50 <> 0 /\ -3 < 0) /\
  initial_speed 1 50 (-3) (fun _ => (0, 0)) = Some (Raise ValueError).
Proof.
  split; [split; lia|].
  apply (initial_speed_negative_raises 50 (-3) (fun _ => (0, 0)) 0); lia.
Defined.

End SpeedProps.

(** ** Registration, repeated clicks *)

Module ClicksProps.
Import Lifecycle LifecycleProps Clicks.

Lemma list_remove_appended id l x :
  occurrences id l = 0%nat -> win_id x = id ->
  list_remove id (l ++ [x]) = Some l.
Proof.
  unfold occurrences. intros Ho Hx.
  induction l as [|p l IH]; simpl in *.
  - rewrite Hx, Nat.eqb_refl. reflexivity.
  - destruct (win_id p =? id)%nat; simpl in Ho; [discriminate|].
    now rewrite IH.
Qed.

Lemma occurrences_app id l1 l2 :
  occurrences id (l1 ++ l2) = (occurrences id l1 + occurrences id l2)%nat.
Proof. unfold occurrences. now rewrite filter_app, length_app. Qed.

(** X6.  Registering a popup and closing it again leaves the registry as it
    was: the counter, the list and its order.  And a registry whose
    counter is the length of its list holds the new popup once. *)
Theorem register_then_close env w geometry :
  occurrences (self_id w) (popups (state w)) = 0%nat ->
  let opened := with_state w (register (state w) (mkWindow (self_id w) geometry)) in
  fst (close env opened) = Ok tt /\
  state (snd (close env opened)) = state w /\
  (popup_number (state w) = Z.of_nat (length (popups (state w))) ->
   registered (state opened) (self_id w)).
Proof.
  intros Ho opened.
  assert (Hl : list_remove (self_id opened) (popups (state opened)) =
               Some (popups (state w))).
  { unfold opened, with_state, register. simpl.
    now apply list_remove_appended. }
  rewrite (close_found env opened _ Hl). simpl.
  repeat split.
  - destruct (state w) as [pn ps alt pump]. simpl. f_equal. lia.
  - simpl. rewrite length_app. simpl. lia.
  - simpl. rewrite occurrences_app, Ho. unfold occurrences. simpl.
    now rewrite Nat.eqb_refl.
Qed.

Lemma register_then_close_witness :
  occurrences (self_id newcomer) (popups (state newcomer)) = 0%nat /\
  state (snd (close calm
                (with_state newcomer
                   (register (state newcomer) (mkWindow 5 (mkRect 0 0 1 1)))))) =
  state newcomer.
Proof.
  split; [reflexivity|].
  apply (register_then_close calm newcomer (mkRect 0 0 1 1)). reflexivity.
Defined.

Lemma filter_absent id l :
  occurrences id l = 0%nat ->
  filter (fun p => negb (win_id p =? id)%nat) l = l.
Proof.
  unfold occurrences. induction l as [|p l IH]; simpl; [reflexivity|].
  destruct (win_id p =? id)%nat; simpl; [discriminate|].
  intros H. now rewrite IH.
Qed.

Lemma list_remove_filter id l :
  occurrences id l = 1%nat ->
  list_remove id l = Some (filter (fun p => negb (win_id p =? id)%nat) l).
Proof.
  unfold occurrences. induction l as [|p l IH]; simpl; [discriminate|].
  destruct (win_id p =? id)%nat; simpl.
  - intros [= H]. now rewrite filter_absent.
  - intros H. now rewrite IH.
Qed.

Lemma occurrences_filter_other id other l :
  other <> id ->
  occurrences other (filter (fun p => negb (win_id p =? id)%nat) l) = occurrences other l.
Proof.
  intros Hne. unfold occurrences. induction l as [|p l IH]; simpl; [reflexivity|].
  destruct (Nat.eqb_spec (win_id p) id) as [E|E]; simpl.
  - destruct (Nat.eqb_spec (win_id p) other); [congruence | assumption].
  - destruct (win_id p =? other)%nat; simpl; now rewrite IH.
Qed.

(** X7.  Closing a registered popup takes this popup, and only this one, out
    of the list: the other popups keep their order, the counter is
    again the length of the list, and every other registered popup is
    still registered. *)
Theorem close_keeps_the_others env w :
  registered (state w) (self_id w) ->
  let st' := state (snd (close env w)) in
  popups st' = filter (fun p => negb (win_id p =? self_id w)%nat) (popups (state w)) /\
  popup_number st' = Z.of_nat (length (popups st')) /\
  (forall other, other <> self_id w ->
     registered (state w) other -> registered st' other).
Proof.
  intros [Hn Ho] st'.
  pose proof (list_remove_filter _ _ Ho) as Hl.
  assert (E : st' = mkState (popup_number (state w) - 1)
                      (filter (fun p => negb (win_id p =? self_id w)%nat) (popups (state w)))
                      (alt_held (state w)) (pump_scare (state w))).
  { unfold st'. now rewrite (close_found env w _ Hl). }
  assert (HL : popup_number (state w) - 1 =
               Z.of_nat (length (filter (fun p => negb (win_id p =? self_id w)%nat)
                                        (popups (state w))))).
  { pose proof (filter_length (fun p => (win_id p =? self_id w)%nat) (popups (state w))).
    unfold occurrences in Ho. lia. }
  rewrite E. cbn [popups popup_number].
  split; [reflexivity|]. split; [exact HL|].
  intros other Hne [_ Hoo]. split; cbn [popups popup_number]; [exact HL|].
  now rewrite occurrences_filter_other.
Qed.

Lemma close_keeps_the_others_witness :
  registered (state (second_popup grid_settings false false)) 0 /\
  popups (state (snd (close calm (second_popup grid_settings false false)))) =
  [mkWindow 7 (mkRect 700 400 300 200)].
Proof.
  assert (H : registered (state (second_popup grid_settings false false))
                         (self_id (second_popup grid_settings false false)))
    by (split; reflexivity).
  split; [exact H|].
  apply (close_keeps_the_others calm (second_popup grid_settings false false) H).
Defined.

(** *** Clicks *)

Lemma after_clicks_pending env k :
  forall w c, Z.of_nat k < c ->
    after_clicks env k (with_clicks w c) = with_clicks w (c - Z.of_nat k).
Proof.
  induction k as [|k IH]; intros w c Hk.
  - simpl. now rewrite Z.sub_0_r.
  - cbn [after_clicks]. rewrite click_pending by (simpl; lia).
    cbn [snd]. change (with_clicks (with_clicks w c) (clicks_to_close (with_clicks w c) - 1))
      with (with_clicks w (c - 1)).
    rewrite IH by lia. f_equal. lia.
Qed.

(** X8.  While the modifier key is not held, or is held with a blacklist
    side effect that succeeds, a popup takes as many clicks as its
    counter says, and one at least: the clicks before the last one only
    lower the counter - the registry, the window and the log stay as
    they are - and the last one closes the popup, after the blacklist
    side effect when the modifier key is held. *)
Theorem multi_click_closes env w (multi_click_popups : bool) (random_clicks_to_close : Z) :
  registered (state w) (self_id w) ->
  alt_held (state w) = false \/ blacklist_env env = BlacklistOk ->
  let c := if multi_click_popups then random_clicks_to_close else 1 in
  let armed := snd (try_multi_click multi_click_popups random_clicks_to_close w) in
  let need := clicks_needed multi_click_popups random_clicks_to_close in
  (forall k, (k < need)%nat ->
     after_clicks env k armed = with_clicks w (c - Z.of_nat k)) /\
  exists l,
    list_remove (self_id w) (popups (state w)) = Some l /\
    after_clicks env need armed =
      clicked_world env (with_clicks w (Z.min 1 c)) l
                    (if alt_held (state w) then [EvMove; EvNotify] else []) /\
    destroyed (after_clicks env need armed) = true /\
    count is_destroy (log (after_clicks env need armed)) = S (count is_destroy (log w)).
Proof.
  intros Hreg Ha c armed need.
  assert (Earmed : armed = with_clicks w c) by reflexivity.
  assert (Hneed : need = Z.to_nat (Z.max 1 c)) by reflexivity.
  destruct (list_remove_once _ _ (proj2 Hreg)) as (l & Hl & _ & _).
  assert (Hpre : forall k, (k < need)%nat ->
            after_clicks env k armed = with_clicks w (c - Z.of_nat k)).
  { intros k Hk. rewrite Earmed.
    destruct (Z.le_gt_cases c 1) as [Hc|Hc].
    - assert (k = 0%nat) by lia. subst k. simpl. now rewrite Z.sub_0_r.
    - apply after_clicks_pending. lia. }
  split; [exact Hpre|].
  exists l. split; [exact Hl|].
  assert (Elast : after_clicks env need armed =
                  clicked_world env (with_clicks w (Z.min 1 c)) l
                                (if alt_held (state w) then [EvMove; EvNotify] else [])).
  { assert (Hsplit : exists k, need = S k) by (exists (Nat.pred need); lia).
    destruct Hsplit as (k & Ek).
    assert (Estep : forall n w0, after_clicks env (S n) w0 =
                                 snd (click env (after_clicks env n w0))).
    { induction n as [|n IHn]; intros w0; [reflexivity|].
      change (after_clicks env (S (S n)) w0)
        with (after_clicks env (S n) (snd (click env w0))).
      rewrite IHn. reflexivity. }
    rewrite Ek, Estep, Hpre by lia.
    replace (c - Z.of_nat k) with (Z.min 1 c) by lia.
    destruct (alt_held (state w)) eqn:Hheld.
    - destruct Ha as [Ha|Ha]; [discriminate|].
      rewrite (click_blacklist env (with_clicks w (Z.min 1 c)) l), Ha;
        [reflexivity | cbn [clicks_to_close with_clicks]; lia | assumption | assumption].
    - rewrite (click_plain env (with_clicks w (Z.min 1 c)) l);
        [reflexivity | cbn [clicks_to_close with_clicks]; lia | assumption | assumption]. }
  split; [exact Elast|]. rewrite Elast. split; [reflexivity|].
  cbn [clicked_world log]. rewrite !count_app.
  destruct (close_events_counts env (with_clicks w (Z.min 1 c))) as (-> & _ & _).
  rewrite (mitosis_events_other is_destroy) by reflexivity.
  destruct (alt_held (state w)); simpl; lia.
Qed.

Lemma multi_click_closes_witness :
  (registered (state (one_popup mitosis_settings false false)) 0 /\
   alt_held (state (one_popup mitosis_settings false false)) = false) /\
  after_clicks calm 4 five_clicks = with_clicks (one_popup mitosis_settings false false) 1.
Proof.
  assert (H : registered (state (one_popup mitosis_settings false false))
                         (self_id (one_popup mitosis_settings false false)))
    by (split; reflexivity).
  split; [split; [exact H | reflexivity]|].
  destruct (multi_click_closes calm (one_popup mitosis_settings false false) true 5
                               H (or_introl eq_refl)) as [Hpre _].
  apply (Hpre 4%nat). unfold clicks_needed. simpl. lia.
Defined.

(** X9.  While the modifier is held and the file move fails, no number of
    clicks closes the popup: each click raises and only lowers the
    counter.  Once the modifier is released, the next click closes it. *)
Theorem failed_blacklist_recovers env w n :
  registered (state w) (self_id w) ->
  clicks_to_close w <= 1 -> alt_held (state w) = true ->
  blacklist_env env = MoveFails ->
  let stuck := after_clicks env n w in
  stuck = with_clicks w (clicks_to_close w - Z.of_nat n) /\
  exists l,
    list_remove (self_id w) (popups (state w)) = Some l /\
    click env (with_alt stuck false) =
    (Ok tt, clicked_world env (with_alt stuck false) l []).
Proof.
  intros Hreg Hc Ha Hfail stuck.
  destruct (list_remove_once _ _ (proj2 Hreg)) as (l & Hl & _ & _).
  assert (E : forall k w0,
            clicks_to_close w0 <= 1 -> alt_held (state w0) = true ->
            list_remove (self_id w0) (popups (state w0)) = Some l ->
            after_clicks env k w0 = with_clicks w0 (clicks_to_close w0 - Z.of_nat k)).
  { induction k as [|k IH]; intros w0 Hc0 Ha0 Hl0.
    - simpl. rewrite Z.sub_0_r. now destruct w0.
    - cbn [after_clicks]. rewrite (click_blacklist env w0 l Hc0 Ha0 Hl0), Hfail.
      cbn [snd]. rewrite IH; simpl; try assumption; try lia.
      unfold with_clicks. simpl. f_equal. lia. }
  assert (Es : stuck = with_clicks w (clicks_to_close w - Z.of_nat n))
    by (apply E; assumption).
  split; [exact Es|]. exists l. split; [exact Hl|].
  apply click_plain; rewrite Es; simpl; try assumption; try reflexivity; lia.
Qed.

Lemma failed_blacklist_recovers_witness :
  (registered (state held_popup) 0 /\ clicks_to_close held_popup <= 1 /\
   alt_held (state held_popup) = true /\ blacklist_env failing_disk = MoveFails) /\
  after_clicks failing_disk 3 held_popup = with_clicks held_popup (-2).
Proof.
  assert (H : registered (state held_popup) (self_id held_popup)) by (split; reflexivity).
  split; [repeat split; auto; simpl; lia|].
  apply (failed_blacklist_recovers failing_disk held_popup 3 H); reflexivity || (simpl; lia).
Defined.

End ClicksProps.

(** ** The grid, cell by cell *)

Module GridProps.
Import Placement PlacementWeights PlacementProps GridScenes.

Lemma mapM_length {A B} (f : A -> result B) l bs :
  mapM f l = Ok bs -> length bs = length l.
Proof.
  revert bs. induction l as [|a l IH]; intros bs; simpl.
  - now intros [= <-].
  - destruct (f a) as [b|e]; simpl; [|discriminate].
    destruct (mapM f l) as [bs'|e]; simpl; [|discriminate].
    intros [= <-]. simpl. f_equal. now apply IH.
Qed.

Lemma choices_In {A} (ps : list A) ws d p :
  choices ps ws d = Ok p -> In p ps.
Proof.
  unfold choices. destruct (negb _); [discriminate|].
  destruct ps as [|p0 ps]; [discriminate|].
  destruct (total ws) as [t|]; [|discriminate].
  destruct (Rle_dec t 0); [discriminate|].
  intros H.
  assert (E : p = nth (d mod length (p0 :: ps)) (p0 :: ps) p0) by congruence.
  rewrite E. apply nth_In. apply Nat.mod_upper_bound. discriminate.
Qed.

(** What a successful run of the grid mode went through. *)
Lemma grid_run cfg st self monitor width height dr r :
  lowkey_mode cfg = false ->
  compute_geometry cfg st self monitor width height dr = Ok r ->
  exists x_index y_index,
    0 <= x_index < (mon_width monitor - width) / side /\
    0 <= y_index < (mon_height monitor - height) / side /\
    rect_w r = width /\ rect_h r = height /\
    (let min_x := x_index * side + mon_x monitor in
     let max_x := min_x + side in
     let max_x := max_x + (if mon_width monitor - width - max_x <? side
                           then (mon_width monitor - width) mod side else 0) - 1 in
     min_x <= rect_x r <= max_x) /\
    (let min_y := y_index * side + mon_y monitor in
     let max_y := min_y + side in
     let max_y := max_y + (if mon_height monitor - height - max_y <? side
                           then (mon_height monitor - height) mod side else 0) - 1 in
     min_y <= rect_y r <= max_y).
Proof.
  intros Hl. unfold compute_geometry. rewrite Hl. cbv zeta.
  destruct (mapM _ _) as [ws|e]; cbn [rbind]; [|discriminate].
  destruct (choices _ ws (cell_draw dr)) as [cell|e] eqn:Ec; cbn [rbind]; [|discriminate].
  apply choices_In in Ec. apply positions_In in Ec as (xi & yi & Hx & Hy & ->).
  cbn [fst snd].
  destruct (randint _ _ (x_draw dr)) as [x|e] eqn:Ex; cbn [rbind]; [|discriminate].
  destruct (randint _ _ (y_draw dr)) as [y|e] eqn:Ey; cbn [rbind]; [|discriminate].
  intros [= <-]. apply randint_range in Ex, Ey.
  exists xi, yi. cbn [rect_x rect_y rect_w rect_h]. cbv zeta. auto 10.
Qed.

(** X10.  Whatever the monitor, the registry and the draws, a rectangle that
    the grid mode returns starts at or after the monitor's left and top
    edges and ends before its right and bottom edges: the grid never
    puts a popup flush with the right or the bottom edge. *)
Theorem grid_never_flush_right cfg st self monitor width height dr r :
  lowkey_mode cfg = false ->
  compute_geometry cfg st self monitor width height dr = Ok r ->
  mon_x monitor <= rect_x r /\ rect_x r + rect_w r < mon_x monitor + mon_width monitor /\
  mon_y monitor <= rect_y r /\ rect_y r + rect_h r < mon_y monitor + mon_height monitor.
Proof.
  intros Hl Hr.
  destruct (grid_run _ _ _ _ _ _ _ _ Hl Hr) as (xi & yi & Hx & Hy & -> & -> & Bx & By).
  cbv zeta in Bx, By. unfold side in *.
  pose proof (Z.mod_pos_bound (mon_width monitor - width) 50 ltac:(lia)).
  pose proof (Z.div_mod (mon_width monitor - width) 50 ltac:(lia)).
  pose proof (Z.mod_pos_bound (mon_height monitor - height) 50 ltac:(lia)).
  pose proof (Z.div_mod (mon_height monitor - height) 50 ltac:(lia)).
  destruct (Z.ltb_spec (mon_width monitor - width - (xi * 50 + mon_x monitor + 50)) 50);
  destruct (Z.ltb_spec (mon_height monitor - height - (yi * 50 + mon_y monitor + 50)) 50);
    lia.
Qed.


Lemma choices_nth {A} (ps : list A) ws d default :
  length ws = length ps -> Forall good_weight ws -> (d < length ps)%nat ->
  choices ps ws d = Ok (nth d ps default).
Proof.
  intros HL HF Hd. unfold choices.
  rewrite HL, Nat.eqb_refl. simpl negb. cbv iota.
  destruct ps as [|p ps]; [simpl in Hd; lia|].
  unfold total. destruct (total_good ws 0 HF) as (t & -> & Ht).
  assert (0 < t)%R.
  { rewrite HL in Ht. simpl length in Ht. rewrite S_INR in Ht.
    pose proof (pos_INR (length ps)). lra. }
  destruct (Rle_dec t 0); [lra|].
  rewrite Nat.mod_small by assumption.
  f_equal. now apply nth_indep.
Qed.

(** With no other popup and every draw 0, the popup lands on the
    monitor's top-left corner. *)
Lemma first_popup_no_draws cfg st self monitor width height :
  lowkey_mode cfg = false -> popup_number st <= 1 -> siblings st self = [] ->
  side <= mon_width monitor - width -> side <= mon_height monitor - height ->
  compute_geometry cfg st self monitor width height no_draws =
  Ok (mkRect (mon_x monitor) (mon_y monitor) width height).
Proof.
  intros Hl Hn Hs Haw Hah. unfold compute_geometry. rewrite Hl. cbv zeta.
  set (aw := mon_width monitor - width) in *.
  set (ah := mon_height monitor - height) in *.
  assert (Hps : exists rest,
            positions monitor aw ah = (mon_x monitor, mon_y monitor) :: rest).
  { unfold positions, range, side in *.
    assert (Hx : exists a, Z.to_nat (aw / 50) = S a).
    { exists (Nat.pred (Z.to_nat (aw / 50))).
      assert (1 <= aw / 50) by (apply Z.div_le_lower_bound; lia). lia. }
    assert (Hy : exists b, Z.to_nat (ah / 50) = S b).
    { exists (Nat.pred (Z.to_nat (ah / 50))).
      assert (1 <= ah / 50) by (apply Z.div_le_lower_bound; lia). lia. }
    destruct Hx as (a & ->), Hy as (b & ->). simpl. eauto. }
  destruct Hps as (rest & Eps).
  rewrite (mapM_ok _ (fun _ => Finite 1)).
  2:{ intros p _. unfold cell_weight. rewrite Hs.
      destruct (Z.ltb_spec 1 (popup_number st)); [lia | reflexivity]. }
  cbn [rbind].
  rewrite (choices_nth _ _ 0%nat (0, 0)).
  2:{ now rewrite length_map. }
  2:{ apply Forall_forall. intros w Hw. apply in_map_iff in Hw as (? & <- & _).
      exists 1%R. split; [reflexivity | lra]. }
  2:{ rewrite Eps. simpl. lia. }
  rewrite Eps. cbn [nth rbind fst snd no_draws x_draw y_draw].
  unfold randint, side.
  pose proof (Z.mod_pos_bound aw 50 ltac:(lia)).
  pose proof (Z.mod_pos_bound ah 50 ltac:(lia)).
  match goal with |- context [?b <? mon_x monitor] =>
    destruct (Z.ltb_spec b (mon_x monitor)) as [Hb|_] end.
  { exfalso. revert Hb. destruct (_ <? 50); lia. }
  cbn [rbind].
  match goal with |- context [?b <? mon_y monitor] =>
    destruct (Z.ltb_spec b (mon_y monitor)) as [Hb|_] end.
  { exfalso. revert Hb. destruct (_ <? 50); lia. }
  cbn [rbind]. rewrite !Z.mod_0_l, !Z.add_0_r by
    (match goal with |- ?x <> 0 => destruct (_ <? 50); lia end).
  reflexivity.
Qed.

Lemma grid_never_flush_right_witness :
  (lowkey_mode grid_settings = false /\
   compute_geometry grid_settings alone 0 full_hd 400 300 no_draws =
   Ok (mkRect 0 0 400 300)) /\
  0 + 400 < 0 + 1920.
Proof.
  assert (H : compute_geometry grid_settings alone 0 full_hd 400 300 no_draws =
              Ok (mkRect 0 0 400 300))
    by (apply first_popup_no_draws; try reflexivity; unfold side; simpl; lia).
  split; [split; [reflexivity | exact H]|].
  apply (grid_never_flush_right grid_settings alone 0 full_hd 400 300 no_draws
           (mkRect 0 0 400 300) eq_refl H).
Defined.

(** X11.  On a monitor that lies at least one cell to the left of the origin
    (or above it), no cell is extended by the remainder: when the area
    does not divide by 50, the last [area mod 50] columns (or rows) of
    the placement area are never used. *)
Theorem grid_skips_remainder_before_origin cfg st self monitor width height dr r :
  lowkey_mode cfg = false ->
  compute_geometry cfg st self monitor width height dr = Ok r ->
  (mon_x monitor <= - side ->
   rect_x r <= mon_x monitor + side * ((mon_width monitor - width) / side) - 1) /\
  (mon_y monitor <= - side ->
   rect_y r <= mon_y monitor + side * ((mon_height monitor - height) / side) - 1).
Proof.
  intros Hl Hr.
  destruct (grid_run _ _ _ _ _ _ _ _ Hl Hr) as (xi & yi & Hx & Hy & _ & _ & Bx & By).
  cbv zeta in Bx, By. unfold side in *.
  pose proof (Z.mod_pos_bound (mon_width monitor - width) 50 ltac:(lia)).
  pose proof (Z.div_mod (mon_width monitor - width) 50 ltac:(lia)).
  pose proof (Z.mod_pos_bound (mon_height monitor - height) 50 ltac:(lia)).
  pose proof (Z.div_mod (mon_height monitor - height) 50 ltac:(lia)).
  split; intros Hm.
  - destruct (Z.ltb_spec (mon_width monitor - width - (xi * 50 + mon_x monitor + 50)) 50);
      lia.
  - destruct (Z.ltb_spec (mon_height monitor - height - (yi * 50 + mon_y monitor + 50)) 50);
      lia.
Qed.

Lemma grid_skips_remainder_before_origin_witness :
  (lowkey_mode grid_settings = false /\ mon_x left_monitor <= - side /\
   compute_geometry grid_settings alone 0 left_monitor 580 300 no_draws =
   Ok (mkRect (-1920) 0 580 300)) /\
  -1920 <= -1920 + side * ((1920 - 580) / side) - 1.
Proof.
  assert (H : compute_geometry grid_settings alone 0 left_monitor 580 300 no_draws =
              Ok (mkRect (-1920) 0 580 300))
    by (apply first_popup_no_draws; try reflexivity; unfold side; simpl; lia).
  split; [split; [reflexivity | split; [unfold side; simpl; lia | exact H]]|].
  assert (Hm : mon_x left_monitor <= - side) by (unfold side; simpl; lia).
  exact (proj1 (grid_skips_remainder_before_origin grid_settings alone 0 left_monitor
                  580 300 no_draws (mkRect (-1920) 0 580 300) eq_refl H) Hm).
Defined.

(** X12.  On a monitor at or after the origin in both directions, every
    position of the placement area but its last column and row can be
    the result: for each such position there are draws that give it. *)
Theorem grid_reaches_every_position cfg st self monitor width height x y :
  lowkey_mode cfg = false ->
  0 < width -> 0 < height ->
  side <= mon_width monitor - width -> side <= mon_height monitor - height ->
  registered st self ->
  0 <= mon_x monitor -> 0 <= mon_y monitor ->
  mon_x monitor <= x <= mon_x monitor + (mon_width monitor - width) - 1 ->
  mon_y monitor <= y <= mon_y monitor + (mon_height monitor - height) - 1 ->
  exists dr,
    compute_geometry cfg st self monitor width height dr = Ok (mkRect x y width height).
Proof.
  intros Hl Hw Hh Haw Hah Hreg Hmx Hmy Hx Hy.
  set (aw := mon_width monitor - width) in *.
  set (ah := mon_height monitor - height) in *.
  unfold side in *.
  assert (Hnx : 1 <= aw / 50) by (apply Z.div_le_lower_bound; lia).
  assert (Hny : 1 <= ah / 50) by (apply Z.div_le_lower_bound; lia).
  pose proof (Z.mod_pos_bound aw 50 ltac:(lia)) as Hmodx.
  pose proof (Z.div_mod aw 50 ltac:(lia)) as Hdivx.
  pose proof (Z.mod_pos_bound ah 50 ltac:(lia)) as Hmody.
  pose proof (Z.div_mod ah 50 ltac:(lia)) as Hdivy.
  set (xi := Z.min ((x - mon_x monitor) / 50) (aw / 50 - 1)).
  set (yi := Z.min ((y - mon_y monitor) / 50) (ah / 50 - 1)).
  pose proof (Z.mod_pos_bound (x - mon_x monitor) 50 ltac:(lia)) as Hqx.
  pose proof (Z.div_mod (x - mon_x monitor) 50 ltac:(lia)) as Hdx.
  pose proof (Z.mod_pos_bound (y - mon_y monitor) 50 ltac:(lia)) as Hqy.
  pose proof (Z.div_mod (y - mon_y monitor) 50 ltac:(lia)) as Hdy.
  assert (Hxi : 0 <= xi < aw / 50).
  { subst xi. pose proof (Z.div_pos (x - mon_x monitor) 50 ltac:(lia) ltac:(lia)). lia. }
  assert (Hyi : 0 <= yi < ah / 50).
  { subst yi. pose proof (Z.div_pos (y - mon_y monitor) 50 ltac:(lia) ltac:(lia)). lia. }
  assert (Hin : In (xi * side + mon_x monitor, yi * side + mon_y monitor)
                   (positions monitor aw ah)).
  { apply positions_In. exists xi, yi. unfold side. auto. }
  destruct (In_nth _ _ (0, 0) Hin) as (d & Hd & Hnth).
  destruct (mapM_Forall
              (fun p => cell_weight st self (mkRect (fst p) (snd p) width height))
              good_weight (positions monitor aw ah)) as (ws & Hws & HF & HL).
  { intros p _.
    destruct (cell_weight_finite st self (mkRect (fst p) (snd p) width height))
      as (v & Ev & Hv); try assumption.
    - now apply registered_siblings.
    - exists (Finite v). split; [assumption|]. exists v. auto. }
  exists (mkDraws 0 d (x - (xi * 50 + mon_x monitor)) (y - (yi * 50 + mon_y monitor))).
  unfold compute_geometry. rewrite Hl. cbv zeta. fold aw ah.
  rewrite Hws. cbn [rbind cell_draw x_draw y_draw].
  rewrite (choices_nth _ ws d (0, 0) HL HF Hd), Hnth. cbn [rbind fst snd].
  unfold side.
  rewrite randint_onto.
  2:{ destruct (Z.ltb_spec (aw - (xi * 50 + mon_x monitor + 50)) 50); subst xi; lia. }
  cbn [rbind]. rewrite randint_onto.
  2:{ destruct (Z.ltb_spec (ah - (yi * 50 + mon_y monitor + 50)) 50); subst yi; lia. }
  reflexivity.
Qed.

Lemma grid_reaches_every_position_witness :
  (lowkey_mode grid_settings = false /\ registered with_sibling 0 /\
   0 <= 1519 <= 0 + (1920 - 400) - 1 /\ 0 <= 779 <= 0 + (1080 - 300) - 1) /\
  exists dr,
    compute_geometry grid_settings with_sibling 0 full_hd 400 300 dr =
    Ok (mkRect 1519 779 400 300).
Proof.
  assert (H : registered with_sibling 0) by (split; reflexivity).
  split; [repeat split; auto; lia|].
  apply (grid_reaches_every_position grid_settings with_sibling 0 full_hd 400 300 1519 779);
    try reflexivity; try exact H; unfold side; simpl; lia.
Defined.

(** X13.  A popup scaled down to no width or no height divides by its area
    as soon as another popup is open: placement ends in
    [ZeroDivisionError]. *)
Theorem empty_popup_divides_by_zero cfg st self monitor width height dr :
  lowkey_mode cfg = false ->
  width * height = 0 -> siblings st self <> [] ->
  side <= mon_width monitor - width -> side <= mon_height monitor - height ->
  compute_geometry cfg st self monitor width height dr = Raise ZeroDivisionError.
Proof.
  intros Hl Hz Hs Haw Hah. unfold compute_geometry. rewrite Hl. cbv zeta.
  destruct (positions monitor (mon_width monitor - width) (mon_height monitor - height))
    as [|p ps] eqn:Ep.
  - exfalso. revert Ep. now apply positions_nonempty.
  - cbn [mapM]. unfold cell_weight at 1.
    destruct (siblings st self) as [|s rest]; [congruence|].
    cbn [weight_loop]. unfold sibling_weight. cbn [rect_w rect_h].
    rewrite Hz. reflexivity.
Qed.

Lemma empty_popup_divides_by_zero_witness :
  (lowkey_mode grid_settings = false /\ no_width * 300 = 0 /\
   siblings with_sibling 0 <> []) /\
  compute_geometry grid_settings with_sibling 0 full_hd no_width 300 no_draws =
  Raise ZeroDivisionError.
Proof.
  split; [repeat split; try reflexivity; discriminate|].
  apply (empty_popup_divides_by_zero grid_settings with_sibling 0 full_hd no_width 300
           no_draws); try reflexivity; try discriminate; unfold side; simpl; lia.
Defined.

(** *** How strongly the weights prefer free cells *)

Lemma Rpower_2_32 : Rpower 2 32 = (2 ^ 32)%R.
Proof.
  replace 32%R with (INR 32) by (simpl; lra).
  apply Rpower_pow. lra.
Qed.

(** X14.  With other popups open: a cell whose candidate rectangle overlaps
    none of them weighs at least 2^32, and a cell whose candidate
    rectangle is exactly the rectangle of one of them weighs 1, the
    least weight there is. *)
Theorem free_cells_outweigh_covered_cells st self c :
  0 < rect_w c -> 0 < rect_h c -> 1 < popup_number st ->
  ((forall s, In s (siblings st self) -> intersection c s = 0) ->
   siblings st self <> [] ->
   exists v, cell_weight st self c = Ok (Finite v) /\ (2 ^ 32 <= v)%R) /\
  (In c (siblings st self) -> cell_weight st self c = Ok (Finite 1)) /\
  (siblings st self <> [] ->
   exists v, cell_weight st self c = Ok (Finite v) /\ (1 <= v)%R).
Proof.
  intros Hw Hh Hn.
  assert (Hrun : cell_weight st self c =
                 Ok (minimum (map (fun s => Finite (per_sibling_weight c s))
                                  (siblings st self)))).
  { unfold cell_weight. rewrite weight_loop_fold by assumption.
    destruct (Z.ltb_spec 1 (popup_number st)); [|lia].
    now rewrite wmin_infinity_r. }
  rewrite Hrun.
  set (ws := map (fun s => Finite (per_sibling_weight c s)) (siblings st self)).
  assert (Hmin_in : siblings st self <> [] -> In (minimum ws) ws).
  { intros Hne. apply minimum_in. unfold ws. intros E.
    apply map_eq_nil in E. now apply Hne. }
  pose proof (minimum_ge_1 c (siblings st self) Hw Hh) as Hge. fold ws in Hge.
  split; [|split].
  - intros Hfree Hne. specialize (Hmin_in Hne).
    unfold ws in Hmin_in at 2. apply in_map_iff in Hmin_in as (s & Es & Hs).
    rewrite <- Es. eexists. split; [reflexivity|].
    unfold per_sibling_weight, nonoverlapFraction.
    rewrite <- intersection_overlapArea, (Hfree s Hs).
    unfold Rdiv. rewrite Rmult_0_l, Rminus_0_r, Rmult_1_r, Rpower_2_32.
    assert (0 <= distanceSquared c s)%R.
    { unfold distanceSquared.
      pose proof (Rle_0_sqr (center_x c - center_x s)).
      pose proof (Rle_0_sqr (center_y c - center_y s)).
      unfold Rsqr in *. lra. }
    lra.
  - intros Hin.
    assert (Hone : per_sibling_weight c c = 1%R).
    { unfold per_sibling_weight, nonoverlapFraction, distanceSquared.
      assert (Ei : overlapArea c c = candidateArea c).
      { rewrite <- intersection_overlapArea. unfold intersection, candidateArea.
        rewrite !Z.min_id, !Z.max_id. nia. }
      rewrite Ei.
      assert (0 < candidateArea c) by (unfold candidateArea; nia).
      assert (IZR (candidateArea c) <> 0%R) by (apply not_0_IZR; lia).
      unfold Rdiv. rewrite Rinv_r by assumption.
      replace (32 * (1 - 1))%R with 0%R by lra.
      rewrite Rpower_O by lra. lra. }
    assert (Hle : wle (minimum ws) (Finite 1)).
    { rewrite <- Hone. apply minimum_le. unfold ws.
      exact (in_map (fun s => Finite (per_sibling_weight c s)) _ c Hin). }
    destruct (minimum ws) as [m|]; simpl in *; [|contradiction].
    do 2 f_equal. lra.
  - intros Hne. specialize (Hmin_in Hne).
    unfold ws in Hmin_in at 2. apply in_map_iff in Hmin_in as (s & Es & Hs).
    rewrite <- Es. eexists. split; [reflexivity|].
    now apply per_sibling_weight_ge_1.
Qed.

Lemma free_cells_outweigh_covered_cells_witness :
  (0 < 300 /\ 0 < 200 /\ 1 < popup_number with_sibling) /\
  cell_weight with_sibling 0 (mkRect 0 0 300 200) = Ok (Finite 1).
Proof.
  split; [repeat split; simpl; lia|].
  apply (free_cells_outweigh_covered_cells with_sibling 0 (mkRect 0 0 300 200));
    simpl; try lia. now left.
Defined.

End GridProps.

(** ** The names of the blacklist *)

Module NamesProps.
Import Ascii String Names.
#[local] Open Scope string_scope.

Example blacklist_directory_of_a_name :
  blacklist_directory "  My  Pack v2 " = "MyPackv2".
Proof. reflexivity. Qed.

Example filename_of_a_path :
  filename "/home/user/packs/My Pack/img/a.b.png" = "a.b.png" /\
  filename "a.png" = "a.png" /\ filename "dir/" = "".
Proof. repeat split. Qed.

Lemma append_assoc (a b c : string) : (a ++ b) ++ c = a ++ (b ++ c).
Proof. induction a as [|x a IH]; simpl; [reflexivity | now rewrite IH]. Qed.

Lemma append_empty_r (a : string) : a ++ "" = a.
Proof. induction a as [|x a IH]; simpl; [reflexivity | now rewrite IH]. Qed.

Lemma filter_string_append keep a b :
  filter_string keep (a ++ b) = filter_string keep a ++ filter_string keep b.
Proof.
  induction a as [|x a IH]; simpl; [reflexivity|].
  destruct (keep x); simpl; now rewrite IH.
Qed.

Lemma filter_string_all keep s :
  all_chars keep s = true -> filter_string keep s = s.
Proof.
  induction s as [|c s IH]; simpl; [reflexivity|].
  intros H. apply andb_true_iff in H as [-> Hs]. now rewrite IH.
Qed.

Lemma all_chars_filter keep s : all_chars keep (filter_string keep s) = true.
Proof.
  induction s as [|c s IH]; simpl; [reflexivity|].
  destruct (keep c) eqn:E; simpl; [now rewrite E|assumption].
Qed.

Lemma all_chars_append p a b :
  all_chars p (a ++ b) = all_chars p a && all_chars p b.
Proof.
  induction a as [|x a IH]; simpl; [reflexivity|].
  now rewrite IH, andb_assoc.
Qed.

Lemma join_split_from s word :
  all_chars no_space word = true ->
  join (split_from s word) = word ++ filter_string no_space s.
Proof.
  revert word. induction s as [|c s IH]; intros word Hw; simpl.
  - destruct word; simpl; [reflexivity | now rewrite append_empty_r].
  - change (no_space c) with (negb (isspace c)).
    destruct (isspace c) eqn:E; cbn [negb].
    + destruct word as [|x word].
      * rewrite IH by reflexivity. reflexivity.
      * cbn [join fold_right]. fold (join (split_from s "")).
        rewrite IH by reflexivity. reflexivity.
    + rewrite IH.
      * rewrite append_assoc. reflexivity.
      * rewrite all_chars_append, Hw. simpl. unfold no_space. now rewrite E.
Qed.

(** X16.  The directory under the blacklist is the pack name without its
    whitespace characters, all other characters in their order: it has
    no whitespace, and names that differ only in whitespace get the same
    directory. *)
Theorem blacklist_directory_drops_whitespace pack_name :
  blacklist_directory pack_name = filter_string no_space pack_name /\
  all_chars no_space (blacklist_directory pack_name) = true /\
  blacklist_directory (blacklist_directory pack_name) = blacklist_directory pack_name /\
  (forall other,
     filter_string no_space other = filter_string no_space pack_name ->
     blacklist_directory other = blacklist_directory pack_name).
Proof.
  assert (E : forall s, blacklist_directory s = filter_string no_space s).
  { intros s. unfold blacklist_directory, split. now rewrite join_split_from. }
  rewrite !E. repeat split.
  - apply all_chars_filter.
  - apply filter_string_all, all_chars_filter.
  - intros other H. now rewrite E.
Qed.


Lemma blacklist_directory_drops_whitespace_example :
  blacklist_directory "My Pack" = blacklist_directory "MyPack".
Proof. apply blacklist_directory_drops_whitespace. reflexivity. Qed.

(** *** The file name *)

Lemma split_on_from_nonempty sep s piece : split_on_from sep s piece <> [].
Proof.
  revert piece. induction s as [|a s IH]; intros piece; simpl; [discriminate|].
  destruct (Ascii.eqb a sep); [discriminate | apply IH].
Qed.

Lemma last_cons {A} (x : A) l d : l <> [] -> last (x :: l) d = last l d.
Proof. destruct l; [congruence | reflexivity]. Qed.

(** The last piece of [s.split("/")]. *)
Lemma last_piece s piece :
  last (split_on_from "/" s piece) "" =
  if all_chars no_slash s then piece ++ s else last (split_on "/" s) "".
Proof.
  revert piece. induction s as [|a s IH]; intros piece.
  - simpl. now rewrite append_empty_r.
  - cbn [split_on_from all_chars]. unfold split_on. cbn [split_on_from].
    unfold no_slash at 1. destruct (Ascii.eqb a "/") eqn:E; cbn [negb andb].
    + rewrite !last_cons by apply split_on_from_nonempty. reflexivity.
    + change ("" ++ String a "") with (String a "").
      rewrite IH, (IH (String a "")).
      destruct (all_chars no_slash s); [|reflexivity].
      rewrite append_assoc. reflexivity.
Qed.

Lemma last_piece_plain s :
  all_chars no_slash s = true -> last (split_on "/" s) "" = s.
Proof. intros H. unfold split_on. now rewrite last_piece, H. Qed.

Lemma last_piece_slash s : last (split_on "/" (String "/" s)) "" = last (split_on "/" s) "".
Proof.
  unfold split_on. cbn [split_on_from]. simpl Ascii.eqb. cbv iota.
  now rewrite last_cons by apply split_on_from_nonempty.
Qed.

Lemma last_piece_other a s :
  Ascii.eqb a "/" = false ->
  last (split_on "/" (String a s)) "" =
  if all_chars no_slash s then String a s else last (split_on "/" s) "".
Proof.
  intros E. unfold split_on at 1. cbn [split_on_from]. rewrite E.
  now rewrite last_piece.
Qed.

Lemma last_piece_no_slash s : all_chars no_slash (last (split_on "/" s) "") = true.
Proof.
  induction s as [|a s IH]; [reflexivity|].
  destruct (Ascii.eqb a "/") eqn:E.
  - apply Ascii.eqb_eq in E. subst a. now rewrite last_piece_slash.
  - rewrite last_piece_other by assumption.
    destruct (all_chars no_slash s) eqn:Hs; [|assumption].
    cbn [all_chars]. unfold no_slash at 1. now rewrite E, Hs.
Qed.

Lemma last_piece_suffix s : exists dir, s = dir ++ last (split_on "/" s) "".
Proof.
  induction s as [|a s (dir & IH)]; [now exists ""|].
  destruct (Ascii.eqb a "/") eqn:E.
  - apply Ascii.eqb_eq in E. subst a. rewrite last_piece_slash.
    exists (String "/" dir). simpl. now rewrite <- IH.
  - rewrite last_piece_other by assumption.
    destruct (all_chars no_slash s).
    + now exists "".
    + exists (String a dir). simpl. now rewrite <- IH.
Qed.

(** [rfind] finds the place where the last piece starts. *)
Lemma rfind_from_last_piece s :
  forall i best,
    (all_chars no_slash s = true -> rfind_from "/" s i best = best) /\
    (all_chars no_slash s = false ->
     i <= rfind_from "/" s i best /\
     slice_from (Z.to_nat (rfind_from "/" s i best - i + 1)) s = last (split_on "/" s) "").
Proof.
  induction s as [|a s IH]; intros i best.
  - split; [reflexivity | discriminate].
  - cbn [rfind_from all_chars]. unfold no_slash at 1 3.
    destruct (IH (i + 1) (if Ascii.eqb a "/" then i else best)) as [Hplain Hslash].
    destruct (Ascii.eqb a "/") eqn:E; cbn [negb andb].
    + apply Ascii.eqb_eq in E. subst a. split; [discriminate|]. intros _.
      rewrite last_piece_slash.
      destruct (all_chars no_slash s) eqn:Hs.
      * rewrite (Hplain eq_refl). split; [lia|].
        replace (i - i + 1) with 1 by lia. simpl.
        now rewrite last_piece_plain.
      * destruct (Hslash eq_refl) as [Hle Hsl]. split; [lia|].
        replace (Z.to_nat (rfind_from "/" s (i + 1) i - i + 1))
          with (S (Z.to_nat (rfind_from "/" s (i + 1) i - (i + 1) + 1))) by lia.
        exact Hsl.
    + split.
      * intros Hs. now apply Hplain.
      * intros Hs. destruct (Hslash Hs) as [Hle Hsl]. split; [lia|].
        rewrite last_piece_other, Hs by assumption.
        replace (Z.to_nat (rfind_from "/" s (i + 1) best - i + 1))
          with (S (Z.to_nat (rfind_from "/" s (i + 1) best - (i + 1) + 1))) by lia.
        exact Hsl.
Qed.

Lemma basename_last_piece p : basename p = last (split_on "/" p) "".
Proof.
  unfold basename, rfind.
  destruct (rfind_from_last_piece p 0 (-1)) as [Hplain Hslash].
  destruct (all_chars no_slash p) eqn:Hp.
  - rewrite (Hplain eq_refl). simpl. now rewrite last_piece_plain.
  - destruct (Hslash eq_refl) as [_ Hsl].
    now rewrite Z.sub_0_r in Hsl.
Qed.

(** X17.  The file name that is shown in the notification is the part of the
    media path after its last "/": it holds no "/", the path ends with
    it, and splitting the base name at "/" again changes nothing. *)
Theorem filename_is_the_last_component media :
  filename media = basename media /\
  basename media = last (split_on "/" media) "" /\
  all_chars no_slash (filename media) = true /\
  (exists dir, media = dir ++ filename media) /\
  (all_chars no_slash media = true -> filename media = media).
Proof.
  assert (E : filename media = basename media).
  { unfold filename. rewrite last_piece_plain; [reflexivity|].
    rewrite basename_last_piece. apply last_piece_no_slash. }
  rewrite E, basename_last_piece.
  repeat split.
  - apply last_piece_no_slash.
  - apply last_piece_suffix.
  - apply last_piece_plain.
Qed.

End NamesProps.

(** ** The valid levels of the corruption dev mode *)

Module CorruptionDevProps.
Import String CorruptionDev.
#[local] Close Scope string_scope.
#[local] Abbreviation length := List.length.

Example valid_levels_of_goth :
  valid_levels plain_level plain_eq fst snd four_levels (Some "goth"%string) = Ok [1; 2; 4] /\
  valid_levels plain_level plain_eq fst snd four_levels (Some "cute"%string) = Ok [2; 3] /\
  valid_levels plain_level plain_eq fst snd four_levels None = Ok [].
Proof. repeat split. Qed.

Section Levels.

Variable Level : Type.
Variable level_eq : Level -> Level -> bool.
Variable added_moods : Level -> list string.
Variable removed_moods : Level -> list string.

#[local] Abbreviation switch := (switch Level added_moods removed_moods).
#[local] Abbreviation on_at_end := (on_at_end Level added_moods removed_moods).
#[local] Abbreviation counted := (counted Level added_moods removed_moods).
#[local] Abbreviation valid_levels := (valid_levels Level level_eq added_moods removed_moods).
#[local] Abbreviation valid_levels_loop := (valid_levels_loop Level level_eq added_moods removed_moods).
#[local] Abbreviation earlier_differ := (earlier_differ Level level_eq).

Hypothesis level_eq_refl : forall l, level_eq l l = true.

Lemma index_from_found (before after : list Level) level i :
  Forall (fun l => level_eq l level = false) before ->
  index_from level_eq level (before ++ level :: after) i =
  Ok (i + Z.of_nat (length before)).
Proof.
  intros H. revert i. induction H as [|l before Hl _ IH]; intros i; simpl.
  - rewrite level_eq_refl. f_equal. lia.
  - rewrite Hl, IH. f_equal. lia.
Qed.

(** With levels that differ, the position looked up is the position
    counted. *)
Lemma loop_counted corruption_levels mood :
  earlier_differ corruption_levels ->
  forall rest before is_mood_on valid,
    corruption_levels = before ++ rest ->
    valid_levels_loop corruption_levels mood rest is_mood_on valid =
    Ok (valid ++ counted mood rest is_mood_on (Z.of_nat (length before))).
Proof.
  intros Hd rest. induction rest as [|level rest IH]; intros before b valid E.
  - simpl. now rewrite app_nil_r.
  - cbn [CorruptionDev.valid_levels_loop CorruptionDev.counted].
    assert (E' : corruption_levels = (before ++ [level]) ++ rest)
      by (rewrite <- app_assoc; exact E).
    assert (HL : Z.of_nat (length (before ++ [level])) = Z.of_nat (length before) + 1)
      by (rewrite length_app; simpl; lia).
    destruct (switch mood b level) eqn:Es.
    + rewrite E at 1.
      rewrite index_from_found by (apply (Hd before level rest E)).
      cbn [rbind]. rewrite (IH (before ++ [level]) true _ E'), HL.
      rewrite <- app_assoc. reflexivity.
    + rewrite (IH (before ++ [level]) false _ E'), HL. reflexivity.
Qed.

Lemma counted_In mood rest :
  forall is_mood_on position k,
    In k (counted mood rest is_mood_on position) <->
    exists r1 level r2,
      rest = r1 ++ level :: r2 /\ k = position + Z.of_nat (length r1) + 1 /\
      fold_left (switch mood) (r1 ++ [level]) is_mood_on = true.
Proof.
  induction rest as [|x rest IH]; intros b p k.
  - simpl. split; [tauto|]. intros (r1 & l & r2 & E & _). now destruct r1.
  - cbn [CorruptionDev.counted]. rewrite in_app_iff, IH. split.
    + intros [H|(r1 & l & r2 & -> & -> & Hf)].
      * destruct (switch mood b x) eqn:Es; [|destruct H].
        destruct H as [<-|[]]. exists [], x, rest. simpl. rewrite Es.
        repeat split. lia.
      * exists (x :: r1), l, r2. simpl. repeat split; [lia | exact Hf].
    + intros (r1 & l & r2 & E & -> & Hf).
      destruct r1 as [|y r1]; simpl in E; injection E as <- ->.
      * left. simpl in Hf. rewrite Hf. left. simpl. lia.
      * right. exists r1, l, r2. simpl in Hf. repeat split; [simpl; lia | exact Hf].
Qed.

Lemma app_eq_snoc {A} (l1 l2 l : list A) (a x : A) :
  l1 ++ a :: l2 = l ++ [x] ->
  (l2 = [] /\ a = x /\ l1 = l) \/
  (exists l2', l2 = l2' ++ [x] /\ l = l1 ++ a :: l2').
Proof.
  intros E. induction l2 as [|y l2' _] using rev_ind.
  - left. apply app_inj_tail in E as [-> ->]. auto.
  - right.
    assert (E' : (l1 ++ a :: l2') ++ [y] = l ++ [x])
      by (rewrite <- app_assoc; exact E).
    apply app_inj_tail in E' as [<- <-]. exists l2'. auto.
Qed.

(** The state of the loop says whether the mood is on. *)
Lemma fold_switch_on mood levels :
  fold_left (switch mood) levels false = true <-> on_at_end mood levels.
Proof.
  induction levels as [|x levels IH] using rev_ind.
  - simpl. split; [discriminate|]. intros (b & l & a & E & _). now destruct b.
  - rewrite fold_left_app. cbn [fold_left]. unfold CorruptionDev.switch at 1.
    destruct (mood_in mood (added_moods x)) eqn:Ea.
    + split; [|reflexivity]. intros _. exists levels, x, []. auto.
    + destruct (mood_in mood (removed_moods x)) eqn:Er.
      * split; [discriminate|]. intros (b & l & a & E & Hl & Ha).
        symmetry in E. apply app_eq_snoc in E as [(-> & -> & ->)|(a' & -> & ->)]; [congruence|].
        apply Forall_app in Ha as [_ Hx]. inversion Hx as [|? ? [H|H] _]; congruence.
      * rewrite IH. split.
        -- intros (b & l & a & -> & Hl & Ha). exists b, l, (a ++ [x]).
           rewrite <- app_assoc. repeat split; [assumption|].
           apply Forall_app. split; [assumption|]. constructor; auto.
        -- intros (b & l & a & E & Hl & Ha).
           symmetry in E. apply app_eq_snoc in E as [(-> & -> & ->)|(a' & -> & ->)]; [congruence|].
           apply Forall_app in Ha as [Ha _]. exists b, l, a'. auto.
Qed.

Lemma counted_sorted mood rest :
  forall is_mood_on position,
    StronglySorted Z.lt (counted mood rest is_mood_on position) /\
    Forall (fun k => position < k) (counted mood rest is_mood_on position).
Proof.
  induction rest as [|x rest IH]; intros b p; [split; constructor|].
  cbn [CorruptionDev.counted].
  destruct (IH (switch mood b x) (p + 1)) as [Hs Hf].
  assert (Hf' : Forall (fun k => p < k) (counted mood rest (switch mood b x) (p + 1))).
  { eapply Forall_impl; [|exact Hf]. simpl. intros; lia. }
  destruct (switch mood b x); simpl.
  - split; constructor; try assumption; lia.
  - auto.
Qed.

(** X18.  When no level equals a later one, the levels listed are, in
    increasing order and counted from 1, exactly the levels at which the
    media's mood is on: some level up to there adds the mood and no
    later level up to there takes it away. *)
Theorem valid_levels_are_the_levels_with_the_mood corruption_levels mood :
  earlier_differ corruption_levels ->
  exists valid,
    valid_levels corruption_levels mood = Ok valid /\
    StronglySorted Z.lt valid /\
    forall k,
      In k valid <->
      exists upto level later,
        corruption_levels = upto ++ level :: later /\
        k = Z.of_nat (length upto) + 1 /\
        on_at_end mood (upto ++ [level]).
Proof.
  intros Hd. unfold CorruptionDev.valid_levels.
  rewrite (loop_counted corruption_levels mood Hd corruption_levels [] false [] eq_refl).
  eexists. split; [reflexivity|]. cbn [app length].
  split; [apply counted_sorted|].
  intros k. rewrite counted_In. split.
  - intros (r1 & l & r2 & E & -> & Hf). exists r1, l, r2.
    split; [assumption|]. split; [simpl; lia | now apply fold_switch_on].
  - intros (r1 & l & r2 & E & -> & Hon). exists r1, l, r2.
    split; [assumption|]. split; [simpl; lia | now apply fold_switch_on].
Qed.

(** X19.  A media without mood is valid at no level. *)
Lemma no_mood_no_level corruption_levels :
  valid_levels corruption_levels None = Ok [].
Proof.
  unfold CorruptionDev.valid_levels. generalize corruption_levels at 1.
  induction corruption_levels as [|l ls IH]; intros all; [reflexivity|].
  cbn [CorruptionDev.valid_levels_loop]. unfold CorruptionDev.switch. simpl. apply IH.
Qed.

End Levels.

Lemma plain_eq_refl l : plain_eq l l = true.
Proof.
  unfold plain_eq.
  destruct (list_eq_dec string_dec (fst l) (fst l)); [|congruence].
  destruct (list_eq_dec string_dec (snd l) (snd l)); [reflexivity | congruence].
Qed.

Lemma four_levels_differ : earlier_differ plain_level plain_eq four_levels.
Proof.
  intros before level after E.
  destruct before as [|l1 [|l2 [|l3 [|l4 [|l5 before]]]]];
    cbv [four_levels app] in E; inversion E; subst;
    repeat constructor.
Qed.

Lemma valid_levels_are_the_levels_with_the_mood_witness :
  earlier_differ plain_level plain_eq four_levels /\
  exists valid,
    valid_levels plain_level plain_eq fst snd four_levels (Some "goth"%string) = Ok valid /\
    StronglySorted Z.lt valid.
Proof.
  split; [exact four_levels_differ|].
  destruct (valid_levels_are_the_levels_with_the_mood plain_level plain_eq fst snd
              plain_eq_refl four_levels (Some "goth"%string) four_levels_differ)
    as (valid & Hv & Hs & _).
  exists valid. auto.
Defined.

End CorruptionDevProps.

(** ** A lowkey popup that moves *)

Module LowkeyMoves.
Import Placement PlacementProps Movement MovementMore.

(** X20.  A popup placed in lowkey mode sits in a corner, and a movement
    whose horizontal speed points out of that corner never takes it
    away from the edge: its horizontal position alternates between the
    corner and one step outside the monitor, for ever. *)
Theorem lowkey_popup_stays_at_its_edge cfg st self monitor width height dr r vx vy n :
  lowkey_mode cfg = true -> lowkey_corner cfg <> 4 ->
  compute_geometry cfg st self monitor width height dr = Ok r ->
  (if (lowkey_corner cfg =? 0) || (lowkey_corner cfg =? 3) then 0 < vx else vx < 0) ->
  pos_x (move monitor width height n (mkMover (rect_x r) (rect_y r) vx vy)) =
    (if Nat.even n then rect_x r else rect_x r + vx).
Proof.
  intros Hl Hc Hr Hv.
  rewrite (lowkey_geometry cfg st self monitor width height dr Hl Hc) in Hr.
  injection Hr as <-. cbn [rect_x rect_y].
  apply (edge_start_oscillates monitor width height
           (mkMover _ _ vx vy) n).
  cbn [pos_x speed_x].
  destruct ((lowkey_corner cfg =? 0) || (lowkey_corner cfg =? 3)); [right | left];
    split; lia.
Qed.

Lemma lowkey_popup_stays_at_its_edge_witness :
  (lowkey_mode (lowkey_settings 1) = true /\ lowkey_corner (lowkey_settings 1) <> 4 /\
   compute_geometry (lowkey_settings 1) alone 0 full_hd 300 200 no_draws =
   Ok (mkRect 0 0 300 200) /\ -4 < 0) /\
  pos_x (move full_hd 300 200 9 (mkMover 0 0 (-4) 2)) = -4.
Proof.
  split; [repeat split; try reflexivity; discriminate|].
  apply (lowkey_popup_stays_at_its_edge (lowkey_settings 1) alone 0 full_hd 300 200
           no_draws (mkRect 0 0 300 200) (-4) 2 9); try reflexivity; discriminate.
Defined.

End LowkeyMoves.

(** ** The order the weights put on cells *)

Module WeightOrder.
Import Placement PlacementWeights.

Lemma wmin_mono a a' b b' : wle a a' -> wle b b' -> wle (wmin a b) (wmin a' b').
Proof.
  destruct a as [x|], a' as [x'|], b as [y|], b' as [y'|]; simpl; try tauto; intros Ha Hb.
  - apply Rmin_glb.
    + eapply Rle_trans; [apply Rmin_l | exact Ha].
    + eapply Rle_trans; [apply Rmin_r | exact Hb].
  - eapply Rle_trans; [apply Rmin_l | exact Ha].
  - eapply Rle_trans; [apply Rmin_r | exact Hb].
Qed.

Lemma minimum_mono (f g : Rect -> weight) l :
  (forall s, In s l -> wle (f s) (g s)) ->
  wle (minimum (map f l)) (minimum (map g l)).
Proof.
  induction l as [|s l IH]; intros H; [exact I|].
  cbn [map minimum fold_right]. apply wmin_mono.
  - apply H. now left.
  - apply IH. intros s' Hs'. apply H. now right.
Qed.

(** X15.  Of two candidate rectangles of the same positive size, the one
    that overlaps every other popup at least as much and whose centre
    is at least as near to the centre of every other popup never gets
    the larger weight: less overlap and more distance never make a cell
    less likely. *)
Theorem nearer_and_more_covered_weighs_less st self c1 c2 :
  0 < rect_w c1 -> 0 < rect_h c1 ->
  rect_w c2 = rect_w c1 -> rect_h c2 = rect_h c1 ->
  (forall s, In s (siblings st self) ->
     intersection c2 s <= intersection c1 s /\
     (distance_squared c1 s <= distance_squared c2 s)%R) ->
  exists w1 w2,
    cell_weight st self c1 = Ok w1 /\ cell_weight st self c2 = Ok w2 /\ wle w1 w2.
Proof.
  intros Hw Hh Ew Eh Hs.
  assert (Hw2 : 0 < rect_w c2) by lia. assert (Hh2 : 0 < rect_h c2) by lia.
  unfold cell_weight. rewrite !weight_loop_fold by assumption.
  do 2 eexists. split; [reflexivity|]. split; [reflexivity|].
  apply wmin_mono; [|apply wle_refl].
  apply (minimum_mono (fun s => Finite (per_sibling_weight c1 s))
                      (fun s => Finite (per_sibling_weight c2 s))).
  intros s Hin. destruct (Hs s Hin) as [Hi Hd]. simpl.
  unfold per_sibling_weight.
  rewrite <- !distance_squared_centers.
  apply Rplus_le_compat; [|exact Hd].
  apply Rle_Rpower; [lra|].
  unfold nonoverlapFraction, candidateArea.
  rewrite <- !intersection_overlapArea, Ew, Eh.
  assert (Ha : 0 < rect_w c1 * rect_h c1) by nia.
  apply IZR_lt in Ha. apply IZR_le in Hi.
  assert (IZR (intersection c2 s) / IZR (rect_w c1 * rect_h c1) <=
          IZR (intersection c1 s) / IZR (rect_w c1 * rect_h c1))%R.
  { unfold Rdiv. apply Rmult_le_compat_r; [|exact Hi].
    left. now apply Rinv_0_lt_compat. }
  lra.
Qed.

Lemma nearer_and_more_covered_weighs_less_witness :
  (0 < 300 /\ 0 < 200 /\
   intersection (mkRect 500 500 300 200) (mkRect 0 0 300 200) <=
   intersection (mkRect 100 100 300 200) (mkRect 0 0 300 200)) /\
  exists w1 w2,
    cell_weight with_sibling 0 (mkRect 100 100 300 200) = Ok w1 /\
    cell_weight with_sibling 0 (mkRect 500 500 300 200) = Ok w2 /\ wle w1 w2.
Proof.
  split; [repeat split; try lia; discriminate|].
  apply (nearer_and_more_covered_weighs_less with_sibling 0
           (mkRect 100 100 300 200) (mkRect 500 500 300 200)); try reflexivity.
  intros s [<-|[]]. split; [discriminate|].
  unfold distance_squared. simpl. lra.
Defined.

End WeightOrder.
